(** * Response validation of the OIDC client: a shallow embedding

    The development follows [src/src/ResponseValidator.ts] and
    [src/src/MetadataService.ts].  JavaScript values of type [any] are
    embedded as a small JSON-like inductive type, the mutable response object
    and the metadata cache live in an explicit store threaded by a
    state-and-exception monad, and the collaborators the two classes import
    (JSON fetcher, token client, user-info service, JOSE primitives, clock)
    are taken as section variables.

    Conventions.  Fields that TypeScript declares as optional strings are
    [option string], and "set" means truthy, as the code tests it; values
    that reach the code as [any] (JWT header and payload, claims, fetched
    documents, the opaque [data]) are [JsValue].  A [throw], a rejected
    promise and a run-time [TypeError] are all the [Throw] outcome.  The
    store of a failed run is the store at the time of the throw, so what the
    caller's response object holds after a rejection can be read off it. *)

From Stdlib Require Import ZArith List String Ascii Bool Arith Lia.
From Stdlib Require Import DecimalString Permutation.
From Stdlib Require QArith Qround.
Import ListNotations.

Set Warnings "-register-all".
Local Open Scope string_scope.
Local Open Scope list_scope.

(** ** JavaScript values *)

Module Js.

(** Values of type [any].  Numbers are the integral ones, strings are
    sequences of code units below 256; an array or an object is a fresh
    reference wherever it occurs in a document; [JBuiltin name] is the
    built-in method [name] that a property read finds on a prototype. *)
Inductive JsValue : Type :=
| JUndefined
| JNull
| JBool (b : bool)
| JNum (n : Z)
| JStr (s : string)
| JArr (items : list JsValue)
| JObj (props : list (string * JsValue))
| JBuiltin (name : string).

(** A plain object: its own enumerable properties in creation order (a
    well-formed one has no name twice; array-index names are not moved to
    the front as JavaScript enumerates them, and the statements below read
    properties by name). *)
Definition Obj : Type := list (string * JsValue).

(** [ToBoolean]: what [if (v)], [!v] and [a || b] test. *)
Definition truthy (v : JsValue) : bool :=
  match v with
  | JUndefined | JNull => false
  | JBool b => b
  | JNum n => negb (n =? 0)%Z
  | JStr s => negb (s =? "")
  | JArr _ | JObj _ | JBuiltin _ => true
  end.

(** [a === b].  Primitives compare by value; two composite values met in
    JSON documents are distinct references, hence never identical. *)
Definition strict_eq (a b : JsValue) : bool :=
  match a, b with
  | JUndefined, JUndefined => true
  | JNull, JNull => true
  | JBool x, JBool y => Bool.eqb x y
  | JNum x, JNum y => (x =? y)%Z
  | JStr x, JStr y => (x =? y)
  | JBuiltin x, JBuiltin y => (x =? y)
  | _, _ => false
  end.

(** [typeof v === "object"] (true of [null] as well). *)
Definition typeof_object (v : JsValue) : bool :=
  match v with
  | JNull | JArr _ | JObj _ => true
  | _ => false
  end.

(** [Array.isArray(v)]. *)
Definition isArray (v : JsValue) : bool :=
  match v with JArr _ => true | _ => false end.

(** A scalar is a string, a number or a boolean. *)
Definition scalar (v : JsValue) : bool :=
  match v with JBool _ | JNum _ | JStr _ => true | _ => false end.

(** [a || b]. *)
Definition or_else (a b : JsValue) : JsValue := if truthy a then a else b.

(** An optional string field ([string | undefined]) seen as a value. *)
Definition of_opt (o : option string) : JsValue :=
  match o with Some s => JStr s | None => JUndefined end.

(** Truthiness of an optional string field. *)
Definition present (o : option string) : bool := truthy (of_opt o).

(** The string of an optional field when the field is truthy. *)
Definition nonempty (o : option string) : option string :=
  if present o then o else None.

(** [a || b] on optional string fields. *)
Definition opt_or (a b : option string) : option string :=
  if present a then a else b.

(** *** Objects *)

Fixpoint lookup (o : Obj) (k : string) : option JsValue :=
  match o with
  | [] => None
  | (k', v) :: rest => if k' =? k then Some v else lookup rest k
  end.

(** [o[k]] on a plain object, for a name [Object.prototype] does not
    define. *)
Definition get (o : Obj) (k : string) : JsValue :=
  match lookup o k with Some v => v | None => JUndefined end.

(** [o[k] = v]: an existing property keeps its place, a new one goes last. *)
Fixpoint set (o : Obj) (k : string) (v : JsValue) : Obj :=
  match o with
  | [] => [(k, v)]
  | (k', v') :: rest =>
      if k' =? k then (k', v) :: rest else (k', v') :: set rest k v
  end.

(** [delete o[k]]. *)
Definition delete (o : Obj) (k : string) : Obj :=
  filter (fun kv => negb (fst kv =? k)) o.

(** The decimal name of an array index. *)
Definition index_name (i : nat) : string :=
  NilEmpty.string_of_uint (Nat.to_uint i).

Fixpoint indexed (i : nat) (l : list JsValue) : Obj :=
  match l with
  | [] => []
  | x :: rest => (index_name i, x) :: indexed (S i) rest
  end.

Fixpoint chars (s : string) : list JsValue :=
  match s with
  | EmptyString => []
  | String c rest => JStr (String c EmptyString) :: chars rest
  end.

(** The own enumerable properties a value exposes to [for ... in] and to
    [Object.assign]: the properties of an object, the indexed elements of an
    array, the indexed characters of a string, nothing otherwise. *)
Definition own_entries (v : JsValue) : Obj :=
  match v with
  | JObj o => o
  | JArr l => indexed 0 l
  | JStr s => indexed 0 (chars s)
  | _ => []
  end.

(** [Object.assign(target, src)]. *)
Definition assign (target : Obj) (src : JsValue) : Obj :=
  fold_left (fun t kv => set t (fst kv) (snd kv)) (own_entries src) target.

(** [v.name] for the property names the validator reads ([keys], [kid],
    [kty], [alg], [nonce], [sub], [at_hash]): a [TypeError] ([None]) on [null]
    and [undefined], the own property of an object, and on the other values
    whatever the prototype holds, which is [Array.prototype.keys] on an
    array, [String.prototype.sub] on a string and [undefined] elsewhere. *)
Definition prop (v : JsValue) (name : string) : option JsValue :=
  match v with
  | JUndefined | JNull => None
  | JObj o => Some (get o name)
  | JArr _ => Some (if name =? "keys" then JBuiltin name else JUndefined)
  | JStr _ => Some (if name =? "sub" then JBuiltin name else JUndefined)
  | _ => Some JUndefined
  end.

(** *** [parseInt] *)

Definition is_space (c : ascii) : bool :=
  let n := nat_of_ascii c in
  ((9 <=? n) && (n <=? 13) || (n =? 32) || (n =? 160))%nat.

Fixpoint trim_start (s : string) : string :=
  match s with
  | EmptyString => EmptyString
  | String c rest => if is_space c then trim_start rest else s
  end.

Definition digit_of (radix : Z) (c : ascii) : option Z :=
  let n := Z.of_nat (nat_of_ascii c) in
  let d :=
    (if (48 <=? n) && (n <=? 57) then n - 48
     else if (97 <=? n) && (n <=? 122) then n - 87
     else if (65 <=? n) && (n <=? 90) then n - 55
     else radix)%Z in
  if (d <? radix)%Z then Some d else None.

(** The longest prefix of digits, read in the radix; [None] when empty. *)
Fixpoint digits (radix : Z) (s : string) (acc : option Z) : option Z :=
  match s with
  | EmptyString => acc
  | String c rest =>
      match digit_of radix c with
      | Some d =>
          digits radix rest
            (Some (radix * (match acc with Some a => a | None => 0 end) + d)%Z)
      | None => acc
      end
  end.

(** [parseInt(s)] without a radix; [None] is [NaN]. *)
Definition parseInt (s : string) : option Z :=
  let s1 := trim_start s in
  let '(sign, s2) :=
    match s1 with
    | String "-" rest => ((-1)%Z, rest)
    | String "+" rest => (1%Z, rest)
    | _ => (1%Z, s1)
    end in
  let '(radix, s3) :=
    match s2 with
    | String "0" (String "x" rest) => (16%Z, rest)
    | String "0" (String "X" rest) => (16%Z, rest)
    | _ => (10%Z, s2)
    end in
  option_map (Z.mul sign) (digits radix s3 None).

(** [n.toString()] of an integral number. *)
Definition num_toString (n : Z) : string :=
  NilEmpty.string_of_int (Z.to_int n).

(** [String(v)], the conversion [parseInt] applies to its argument. *)
Fixpoint toString (v : JsValue) : string :=
  match v with
  | JUndefined => "undefined"
  | JNull => "null"
  | JBool true => "true"
  | JBool false => "false"
  | JNum n => num_toString n
  | JStr s => s
  | JArr l =>
      (fix join (l : list JsValue) : string :=
         match l with
         | [] => ""
         | x :: rest =>
             let item :=
               match x with
               | JUndefined | JNull => ""
               | _ => toString x
               end in
             match rest with
             | [] => item
             | _ => (item ++ "," ++ join rest)%string
             end
         end) l
  | JObj _ => "[object Object]"
  | JBuiltin name => ("function " ++ name ++ "() { [native code] }")%string
  end.

End Js.
Import Js.

(** ** Records of the data model *)

(** [OidcClientSettingsStore], the configuration both classes read. *)
Module Settings.
Record t : Type := mk {
  authority : option string;
  metadataUrl : option string;
  metadata : option Obj;
  metadataSeed : option Obj;
  signingKeys : JsValue;
  client_id : option string;
  clockSkewInSeconds : Z;
  filterProtocolClaims : bool;
  loadUserInfo : bool;
  mergeClaims : bool
}.
End Settings.

(** [State]: what a sign-out request stores. *)
Module State.
Record t : Type := mk {
  id : string;
  data : JsValue
}.
End State.

(** [SigninState]: what a sign-in request stores. *)
Module SigninState.
Record t : Type := mk {
  id : string;
  data : JsValue;
  client_id : option string;
  client_secret : option string;
  authority : option string;
  redirect_uri : option string;
  nonce : option string;
  code_verifier : option string;
  scope : option string;
  extraTokenParams : JsValue;
  skipUserInfo : option bool
}.
End SigninState.

(** [SignoutResponse]. *)
Module SignoutResponse.
Record t : Type := mk {
  state : JsValue;
  error : option string;
  error_description : option string;
  error_uri : option string
}.

Definition set_state (v : JsValue) (r : t) : t :=
  mk v (error r) (error_description r) (error_uri r).

Arguments set_state v r /.
End SignoutResponse.

(** [SigninResponse], the object the pipeline enriches in place. *)
Module SigninResponse.
Record t : Type := mk {
  state : JsValue;
  code : option string;
  error : option string;
  error_description : option string;
  error_uri : option string;
  id_token : option string;
  session_state : option string;
  access_token : option string;
  token_type : option string;
  scope : option string;
  expires_in : option Z;
  profile : JsValue
}.

Definition set_state (v : JsValue) (r : t) : t :=
  mk v (code r) (error r) (error_description r) (error_uri r) (id_token r)
     (session_state r) (access_token r) (token_type r) (scope r)
     (expires_in r) (profile r).

Definition set_error (v : option string) (r : t) : t :=
  mk (state r) (code r) v (error_description r) (error_uri r) (id_token r)
     (session_state r) (access_token r) (token_type r) (scope r)
     (expires_in r) (profile r).

Definition set_error_description (v : option string) (r : t) : t :=
  mk (state r) (code r) (error r) v (error_uri r) (id_token r)
     (session_state r) (access_token r) (token_type r) (scope r)
     (expires_in r) (profile r).

Definition set_error_uri (v : option string) (r : t) : t :=
  mk (state r) (code r) (error r) (error_description r) v (id_token r)
     (session_state r) (access_token r) (token_type r) (scope r)
     (expires_in r) (profile r).

Definition set_id_token (v : option string) (r : t) : t :=
  mk (state r) (code r) (error r) (error_description r) (error_uri r) v
     (session_state r) (access_token r) (token_type r) (scope r)
     (expires_in r) (profile r).

Definition set_session_state (v : option string) (r : t) : t :=
  mk (state r) (code r) (error r) (error_description r) (error_uri r)
     (id_token r) v (access_token r) (token_type r) (scope r)
     (expires_in r) (profile r).

Definition set_access_token (v : option string) (r : t) : t :=
  mk (state r) (code r) (error r) (error_description r) (error_uri r)
     (id_token r) (session_state r) v (token_type r) (scope r)
     (expires_in r) (profile r).

Definition set_token_type (v : option string) (r : t) : t :=
  mk (state r) (code r) (error r) (error_description r) (error_uri r)
     (id_token r) (session_state r) (access_token r) v (scope r)
     (expires_in r) (profile r).

Definition set_scope (v : option string) (r : t) : t :=
  mk (state r) (code r) (error r) (error_description r) (error_uri r)
     (id_token r) (session_state r) (access_token r) (token_type r) v
     (expires_in r) (profile r).

Definition set_expires_in (v : option Z) (r : t) : t :=
  mk (state r) (code r) (error r) (error_description r) (error_uri r)
     (id_token r) (session_state r) (access_token r) (token_type r) (scope r)
     v (profile r).

Definition set_profile (v : JsValue) (r : t) : t :=
  mk (state r) (code r) (error r) (error_description r) (error_uri r)
     (id_token r) (session_state r) (access_token r) (token_type r) (scope r)
     (expires_in r) v.

Arguments set_state v r /.
Arguments set_error v r /.
Arguments set_error_description v r /.
Arguments set_error_uri v r /.
Arguments set_id_token v r /.
Arguments set_session_state v r /.
Arguments set_access_token v r /.
Arguments set_token_type v r /.
Arguments set_scope v r /.
Arguments set_expires_in v r /.
Arguments set_profile v r /.
End SigninResponse.

(** What the token endpoint answers to a code exchange. *)
Module TokenResponse.
Record t : Type := mk {
  error : option string;
  error_description : option string;
  error_uri : option string;
  id_token : option string;
  session_state : option string;
  access_token : option string;
  token_type : option string;
  scope : option string;
  expires_in : JsValue
}.
End TokenResponse.

(** A parsed compact JWT. *)
Module Jwt.
Record t : Type := mk {
  header : JsValue;
  payload : JsValue
}.
End Jwt.

(** ** Failures *)

(** The in-band error fields and the opaque data an [ErrorResponse] wraps. *)
Record ErrorResponse : Type := mkErrorResponse {
  er_error : option string;
  er_error_description : option string;
  er_error_uri : option string;
  er_state : JsValue
}.

(** What a validation call can throw: [new Error(message)], an
    [ErrorResponse], a run-time [TypeError], or whatever a collaborator
    rejected with. *)
Inductive Failure : Type :=
| Error (message : string)
| ErrorResponseOf (e : ErrorResponse)
| TypeError
| Rejected (reason : JsValue).

Inductive Result (A : Type) : Type :=
| Ok (a : A)
| Throw (e : Failure).
Arguments Ok {A} a.
Arguments Throw {A} e.

Definition failed {A : Type} (r : Result A) : bool :=
  match r with Ok _ => false | Throw _ => true end.

(** ** Computations over a store that may throw *)

Definition ST (S A : Type) : Type := S -> Result A * S.

Definition ret {S A : Type} (a : A) : ST S A := fun s => (Ok a, s).

Definition throw {S A : Type} (e : Failure) : ST S A := fun s => (Throw e, s).

Definition bind {S A B : Type} (c : ST S A) (k : A -> ST S B) : ST S B :=
  fun s =>
    match c s with
    | (Ok a, s') => k a s'
    | (Throw e, s') => (Throw e, s')
    end.

Definition gets {S A : Type} (f : S -> A) : ST S A := fun s => (Ok (f s), s).

Definition modify {S : Type} (f : S -> S) : ST S unit := fun s => (Ok tt, f s).

(** [if (cond) { throw new Error(message); }] *)
Definition throw_if {S : Type} (cond : bool) (message : string) : ST S unit :=
  if cond then throw (Error message) else ret tt.

(** A value that must not be a [TypeError]. *)
Definition defined {S A : Type} (o : option A) : ST S A :=
  match o with Some a => ret a | None => throw TypeError end.

(** A collaborator's outcome, as is. *)
Definition settle {S A : Type} (r : Result A) : ST S A := fun s => (r, s).

Declare Scope st_scope.
Delimit Scope st_scope with st.
Notation "x <- c ;; k" := (bind c (fun x => k))
  (at level 61, c at next level, right associativity) : st_scope.
Notation "c ;; k" := (bind c (fun _ => k))
  (at level 61, right associativity) : st_scope.
Local Open Scope st_scope.

(** ** The metadata service *)

Module MetadataService.
(** The cache fields of a [MetadataService] instance. *)
Record t : Type := mk {
  _metadataUrl : option string;
  _signingKeys : JsValue;
  _metadata : option Obj
}.
End MetadataService.

(** A call that left the process through the JSON fetcher. *)
Inductive Event : Type :=
| GetJson (url : JsValue).

(** The world a validation runs in: the metadata service instance and the
    requests sent so far. *)
Record World : Type := mkWorld {
  service : MetadataService.t;
  log : list Event
}.

Definition OidcMetadataUrlPath : string := ".well-known/openid-configuration".

(** The last character of a string is not a slash. *)
Definition lacks_trailing_slash (s : string) : bool :=
  match String.get (String.length s - 1) s with
  | Some c => negb (Ascii.eqb c "/")
  | None => true
  end.

(** [new MetadataService(settings)]. *)
Definition constructor (settings : Settings.t) : MetadataService.t :=
  let _metadataUrl :=
    if present (Settings.metadataUrl settings) then Settings.metadataUrl settings
    else
      match Settings.authority settings with
      | Some authority =>
          if present (Some authority) then
            let url :=
              if lacks_trailing_slash authority
              then (authority ++ "/")%string else authority in
            Some (url ++ OidcMetadataUrlPath)%string
          else None
      | None => None
      end in
  let _signingKeys :=
    if truthy (Settings.signingKeys settings)
    then Settings.signingKeys settings else JNull in
  let _metadata := Settings.metadata settings in
  MetadataService.mk _metadataUrl _signingKeys _metadata.

Section Metadata.

Variable settings : Settings.t.

(** [JsonService.getJson]: the answer may depend on what was requested
    before. *)
Variable getJson : list Event -> JsValue -> Result JsValue.

Definition set_signingKeys (v : JsValue) (w : World) : World :=
  mkWorld
    (MetadataService.mk (MetadataService._metadataUrl (service w)) v
       (MetadataService._metadata (service w)))
    (log w).

Definition set_metadata (v : option Obj) (w : World) : World :=
  mkWorld
    (MetadataService.mk (MetadataService._metadataUrl (service w))
       (MetadataService._signingKeys (service w)) v)
    (log w).

(** [await this._jsonService.getJson(url)]: the request is recorded, then
    the fetcher's answer is returned or thrown. *)
Definition fetchJson (url : JsValue) : ST World JsValue :=
  fun w => (getJson (log w) url, mkWorld (service w) (log w ++ [GetJson url])).

Definition resetSigningKeys : ST World unit :=
  modify (set_signingKeys JNull).

Definition getMetadata : ST World Obj :=
  cached <- gets (fun w => MetadataService._metadata (service w)) ;;
  match cached with
  | Some metadata => ret metadata
  | None =>
      url <- gets (fun w => MetadataService._metadataUrl (service w)) ;;
      throw_if (negb (present url))
        "No authority or metadataUrl configured on settings" ;;
      metadata <- fetchJson (of_opt url) ;;
      let seed :=
        match Settings.metadataSeed settings with
        | Some seed => seed
        | None => []
        end in
      let merged := assign (assign [] (JObj seed)) metadata in
      modify (set_metadata (Some merged)) ;;
      ret merged
  end.

Definition _getMetadataProperty (name : string) (optional : bool)
  : ST World JsValue :=
  metadata <- getMetadata ;;
  if strict_eq (get metadata name) JUndefined then
    if optional then ret JUndefined
    else throw (Error ("Metadata does not contain property " ++ name)%string)
  else ret (get metadata name).

Definition getIssuer : ST World JsValue :=
  _getMetadataProperty "issuer" false.

Definition getKeysEndpoint (optional : bool) : ST World JsValue :=
  _getMetadataProperty "jwks_uri" optional.

Definition getSigningKeys : ST World JsValue :=
  cached <- gets (fun w => MetadataService._signingKeys (service w)) ;;
  if truthy cached then ret cached
  else
    jwks_uri <- getKeysEndpoint false ;;
    keySet <- fetchJson jwks_uri ;;
    keys <- defined (prop keySet "keys") ;;
    throw_if (negb (truthy keys)) "Missing keys on keyset" ;;
    modify (set_signingKeys keys) ;;
    ret keys.

End Metadata.

(** ** The response validator *)

Definition ProtocolClaims : list string :=
  ["nonce"; "at_hash"; "iat"; "nbf"; "exp"; "aud"; "iss"; "c_hash"].

(** The store of a sign-in validation: the response object the caller
    passed, mutated in place, and the world. *)
Record Store : Type := mkStore {
  response : SigninResponse.t;
  world : World
}.

(** A computation of the metadata service, run from the validator. *)
Definition in_world {A : Type} (c : ST World A) : ST Store A :=
  fun s =>
    let '(r, w) := c (world s) in (r, mkStore (response s) w).

(** An assignment to a field of the response object. *)
Definition update (f : SigninResponse.t -> SigninResponse.t) : ST Store unit :=
  modify (fun s => mkStore (f (response s)) (world s)).

(** [new ErrorResponse(response)] *)
Definition wrap (r : SigninResponse.t) : ErrorResponse :=
  mkErrorResponse (SigninResponse.error r) (SigninResponse.error_description r)
    (SigninResponse.error_uri r) (SigninResponse.state r).

Definition wrap_signout (r : SignoutResponse.t) : ErrorResponse :=
  mkErrorResponse (SignoutResponse.error r)
    (SignoutResponse.error_description r) (SignoutResponse.error_uri r)
    (SignoutResponse.state r).

(** [keys.filter(key => key[name] === value)]; [None] is the [TypeError] of
    reading a property of [null]. *)
Fixpoint filter_by (name : string) (value : JsValue) (keys : list JsValue)
  : option (list JsValue) :=
  match keys with
  | [] => Some []
  | key :: rest =>
      match prop key name with
      | None => None
      | Some v =>
          match filter_by name value rest with
          | None => None
          | Some kept => Some (if strict_eq v value then key :: kept else kept)
          end
      end
  end.

(** [a ?? b] *)
Definition nullish_or (a b : JsValue) : JsValue :=
  match a with JUndefined | JNull => b | _ => a end.

(** [xs[0]] *)
Definition first (xs : list JsValue) : JsValue :=
  match xs with x :: _ => x | [] => JUndefined end.

(** [xs.indexOf(value) < 0] *)
Definition index_of_negative (xs : list JsValue) (value : JsValue) : bool :=
  negb (existsb (fun x => strict_eq x value) xs).

(** [v.length] *)
Definition length_of (v : JsValue) : JsValue :=
  match v with
  | JStr s => JNum (Z.of_nat (String.length s))
  | JArr items => JNum (Z.of_nat (List.length items))
  | JObj o => get o "length"
  | JBuiltin _ => JNum 0
  | _ => JUndefined
  end.

(** [parseInt(v) || prior] for a numeric field. *)
Definition parsed_or (v : JsValue) (prior : option Z) : option Z :=
  match parseInt (toString v) with
  | Some n => if (n =? 0)%Z then prior else Some n
  | None => prior
  end.

(** One turn of the inner loop of [_mergeClaims] on [result[name]]; [recur]
    is the recursive merge of the current value with [value]. *)
Definition merge_value (deep : bool) (recur : JsValue -> JsValue)
    (name : string) (value : JsValue) (result : Obj) : Obj :=
  let current := get result name in
  if negb (truthy current) then set result name value
  else
    match current with
    | JArr items =>
        if index_of_negative items value
        then set result name (JArr (items ++ [value]))
        else result
    | _ =>
        if negb (strict_eq current value) then
          if typeof_object value && deep
          then set result name (recur current)
          else set result name (JArr [current; value])
        else result
    end.

Section Validator.

Variable settings : Settings.t.

(** The collaborators: JSON fetcher, token client, user-info service, the
    JOSE primitives, the clock, and the [isOpenIdConnect] accessor of the
    response class. *)
Variable getJson : list Event -> JsValue -> Result JsValue.
Variable exchangeCode : Obj -> ST World TokenResponse.t.
Variable getClaims : string -> ST World JsValue.
Variable parseJwt : string -> option Jwt.t.
Variable validateJwtAttributes :
  string -> JsValue -> option string -> Z -> Z -> Result JsValue.
Variable validateJwt :
  string -> JsValue -> JsValue -> option string -> Z -> Result unit.
Variable hashString : string -> string -> string.
Variable hexToBase64Url : string -> string.
Variable Date_now : World -> Z.
Variable isOpenIdConnect : SigninResponse.t -> bool.

(** [Timer.getEpochTime()] *)
Definition getEpochTime (w : World) : Z := (Date_now w / 1000)%Z.

Definition validateSignoutResponse (state : State.t)
  : ST SignoutResponse.t SignoutResponse.t :=
  response <- gets (fun r => r) ;;
  throw_if (negb (strict_eq (JStr (State.id state))
                    (SignoutResponse.state response)))
    "State does not match" ;;
  modify (SignoutResponse.set_state (State.data state)) ;;
  response <- gets (fun r => r) ;;
  (if present (SignoutResponse.error response)
   then throw (ErrorResponseOf (wrap_signout response)) else ret tt) ;;
  ret response.

Definition _processSigninParams (state : SigninState.t) : ST Store unit :=
  r <- gets response ;;
  throw_if (negb (strict_eq (JStr (SigninState.id state))
                    (SigninResponse.state r)))
    "State does not match" ;;
  throw_if (negb (present (SigninState.client_id state)))
    "No client_id on state" ;;
  throw_if (negb (present (SigninState.authority state)))
    "No authority on state" ;;
  throw_if (negb (strict_eq (of_opt (Settings.authority settings))
                    (of_opt (SigninState.authority state))))
    "authority mismatch on settings vs. signin state" ;;
  throw_if (present (Settings.client_id settings)
            && negb (strict_eq (of_opt (Settings.client_id settings))
                       (of_opt (SigninState.client_id state))))
    "client_id mismatch on settings vs. signin state" ;;
  update (SigninResponse.set_state (SigninState.data state)) ;;
  r <- gets response ;;
  (if present (SigninResponse.error r)
   then throw (ErrorResponseOf (wrap r)) else ret tt) ;;
  throw_if (present (SigninState.nonce state)
            && negb (present (SigninResponse.id_token r)))
    "No id_token in response" ;;
  throw_if (negb (present (SigninState.nonce state))
            && present (SigninResponse.id_token r))
    "Unexpected id_token in response" ;;
  throw_if (present (SigninState.code_verifier state)
            && negb (present (SigninResponse.code r)))
    "No code in response" ;;
  throw_if (negb (present (SigninState.code_verifier state))
            && present (SigninResponse.code r))
    "Unexpected code in response" ;;
  if negb (present (SigninResponse.scope r))
  then update (SigninResponse.set_scope (SigninState.scope state))
  else ret tt.

Fixpoint _mergeClaims (claims1 claims2 : JsValue) {struct claims2} : JsValue :=
  let deep := Settings.mergeClaims settings in
  let result := assign [] claims1 in
  let each (name : string) (value : JsValue) :=
    merge_value deep (fun current => _mergeClaims current value) name value in
  let each_of (name : string) (values : JsValue) (result : Obj) : Obj :=
    match values with
    | JArr items =>
        fold_left (fun result value => each name value result) items result
    | value => each name value result
    end in
  match claims2 with
  | JObj props =>
      JObj (fold_left
              (fun result kv => each_of (fst kv) (snd kv) result) props result)
  | JArr items =>
      JObj ((fix loop (i : nat) (items : list JsValue) (result : Obj) : Obj :=
               match items with
               | [] => result
               | values :: rest =>
                   loop (S i) rest (each_of (index_name i) values result)
               end) 0%nat items result)
  | JStr s =>
      JObj (fold_left
              (fun result kv =>
                 merge_value deep (fun current => current) (fst kv) (snd kv)
                   result)
              (indexed 0 (chars s)) result)
  | _ => JObj result
  end.

Definition _filterProtocolClaims (claims : JsValue) : JsValue :=
  let result := assign [] claims in
  if Settings.filterProtocolClaims settings
  then JObj (fold_left delete ProtocolClaims result)
  else JObj result.

Definition _processClaims (state : SigninState.t) : ST Store unit :=
  r <- gets response ;;
  if isOpenIdConnect r then
    update (SigninResponse.set_profile
              (_filterProtocolClaims (SigninResponse.profile r))) ;;
    r <- gets response ;;
    match nonempty (SigninResponse.access_token r) with
    | Some access_token =>
        if negb (match SigninState.skipUserInfo state with
                 | Some true => true
                 | _ => false
                 end)
           && Settings.loadUserInfo settings
        then
          claims <- in_world (getClaims access_token) ;;
          claims_sub <- defined (prop claims "sub") ;;
          profile_sub <- defined (prop (SigninResponse.profile r) "sub") ;;
          throw_if (negb (strict_eq claims_sub profile_sub))
            "sub from user info endpoint does not match sub in id_token" ;;
          update (SigninResponse.set_profile
                    (_mergeClaims (SigninResponse.profile r) claims))
        else ret tt
    | None => ret tt
    end
  else ret tt.

Definition _validateIdTokenAttributes (state : SigninState.t)
    (id_token : string) : ST Store unit :=
  issuer <- in_world (getIssuer settings getJson) ;;
  let audience := SigninState.client_id state in
  let clockSkewInSeconds := Settings.clockSkewInSeconds settings in
  now <- gets (fun s => getEpochTime (world s)) ;;
  payload <- settle (validateJwtAttributes id_token issuer audience
                       clockSkewInSeconds now) ;;
  (if present (SigninState.nonce state) then
     payload_nonce <- defined (prop payload "nonce") ;;
     throw_if (negb (strict_eq (of_opt (SigninState.nonce state))
                       payload_nonce))
       "Invalid nonce in id_token"
   else ret tt) ;;
  payload_sub <- defined (prop payload "sub") ;;
  throw_if (negb (truthy payload_sub)) "No sub present in id_token" ;;
  update (SigninResponse.set_profile payload).

Definition _processCode (state : SigninState.t) : ST Store unit :=
  r <- gets response ;;
  let request : Obj :=
    [("client_id", of_opt (SigninState.client_id state));
     ("client_secret", of_opt (SigninState.client_secret state));
     ("code", of_opt (SigninResponse.code r));
     ("redirect_uri", of_opt (SigninState.redirect_uri state));
     ("code_verifier",
      or_else (of_opt (SigninState.code_verifier state)) (JStr ""))] in
  let request :=
    if truthy (SigninState.extraTokenParams state)
       && typeof_object (SigninState.extraTokenParams state)
    then assign request (SigninState.extraTokenParams state)
    else request in
  tokenResponse <- in_world (exchangeCode request) ;;
  update (fun r => SigninResponse.set_error
            (opt_or (TokenResponse.error tokenResponse)
               (SigninResponse.error r)) r) ;;
  update (fun r => SigninResponse.set_error_description
            (opt_or (TokenResponse.error_description tokenResponse)
               (SigninResponse.error_description r)) r) ;;
  update (fun r => SigninResponse.set_error_uri
            (opt_or (TokenResponse.error_uri tokenResponse)
               (SigninResponse.error_uri r)) r) ;;
  update (fun r => SigninResponse.set_id_token
            (opt_or (TokenResponse.id_token tokenResponse)
               (SigninResponse.id_token r)) r) ;;
  update (fun r => SigninResponse.set_session_state
            (opt_or (TokenResponse.session_state tokenResponse)
               (SigninResponse.session_state r)) r) ;;
  update (fun r => SigninResponse.set_access_token
            (opt_or (TokenResponse.access_token tokenResponse)
               (SigninResponse.access_token r)) r) ;;
  update (fun r => SigninResponse.set_token_type
            (opt_or (TokenResponse.token_type tokenResponse)
               (SigninResponse.token_type r)) r) ;;
  update (fun r => SigninResponse.set_scope
            (opt_or (TokenResponse.scope tokenResponse)
               (SigninResponse.scope r)) r) ;;
  update (fun r => SigninResponse.set_expires_in
            (parsed_or (TokenResponse.expires_in tokenResponse)
               (SigninResponse.expires_in r)) r) ;;
  r <- gets response ;;
  match nonempty (SigninResponse.id_token r) with
  | Some id_token => _validateIdTokenAttributes state id_token
  | None => ret tt
  end.

Definition _filterByAlg (keys : JsValue) (alg : JsValue)
  : ST World (list JsValue) :=
  match alg with
  | JStr alg =>
      let filter (kty : string) : ST World (list JsValue) :=
        match keys with
        | JArr keys => defined (filter_by "kty" (JStr kty) keys)
        | _ => throw TypeError
        end in
      if String.prefix "RS" alg then filter "RSA"
      else if String.prefix "PS" alg then filter "PS"
      else if String.prefix "ES" alg then filter "EC"
      else ret []
  | _ => throw TypeError
  end.

Definition _getSigningKeyForJwt (jwt : Jwt.t) : ST World JsValue :=
  keys <- getSigningKeys settings getJson ;;
  throw_if (negb (truthy keys)) "No signing keys from metadata" ;;
  kid <- defined (prop (Jwt.header jwt) "kid") ;;
  if truthy kid then
    match keys with
    | JArr keys =>
        matching <- defined (filter_by "kid" kid keys) ;;
        ret (nullish_or (first matching) JNull)
    | _ => throw TypeError
    end
  else
    alg <- defined (prop (Jwt.header jwt) "alg") ;;
    keys <- _filterByAlg keys alg ;;
    if negb (List.length keys =? 1)%nat then ret JNull
    else ret (first keys).

Definition _getSigningKeyForJwtWithSingleRetry (jwt : Jwt.t)
  : ST World JsValue :=
  key <- _getSigningKeyForJwt jwt ;;
  if truthy key then ret key
  else
    resetSigningKeys ;;
    _getSigningKeyForJwt jwt.

Definition _validateIdToken (state : SigninState.t) (id_token : string)
  : ST Store unit :=
  throw_if (negb (present (SigninState.nonce state))) "No nonce on state" ;;
  match parseJwt id_token with
  | None => throw (Error "Failed to parse id_token")
  | Some jwt =>
      throw_if (negb (truthy (Jwt.header jwt))
                || negb (truthy (Jwt.payload jwt)))
        "Failed to parse id_token" ;;
      let payload := Jwt.payload jwt in
      payload_nonce <- defined (prop payload "nonce") ;;
      throw_if (negb (strict_eq (of_opt (SigninState.nonce state))
                        payload_nonce))
        "Invalid nonce in id_token" ;;
      issuer <- in_world (getIssuer settings getJson) ;;
      key <- in_world (_getSigningKeyForJwtWithSingleRetry jwt) ;;
      throw_if (negb (truthy key))
        "No key matching kid or alg found in signing keys" ;;
      let audience := SigninState.client_id state in
      let clockSkewInSeconds := Settings.clockSkewInSeconds settings in
      settle (validateJwt id_token key issuer audience clockSkewInSeconds) ;;
      payload_sub <- defined (prop payload "sub") ;;
      throw_if (negb (truthy payload_sub)) "No sub present in id_token" ;;
      update (SigninResponse.set_profile payload)
  end.

(** The three digest widths [_validateAccessToken] accepts. *)
Definition supported_bits (hashBits : Z) : bool :=
  ((hashBits =? 256) || (hashBits =? 384) || (hashBits =? 512))%Z.

Definition _validateAccessToken (access_token : string) : ST Store unit :=
  r <- gets response ;;
  throw_if (negb (truthy (SigninResponse.profile r)))
    "No profile loaded from id_token" ;;
  at_hash <- defined (prop (SigninResponse.profile r) "at_hash") ;;
  throw_if (negb (truthy at_hash)) "No at_hash in id_token" ;;
  match nonempty (SigninResponse.id_token r) with
  | None => throw (Error "No id_token")
  | Some id_token =>
      match parseJwt id_token with
      | None => throw (Error "Failed to parse id_token")
      | Some jwt =>
          throw_if (negb (truthy (Jwt.header jwt)))
            "Failed to parse id_token" ;;
          hashAlg <- defined (prop (Jwt.header jwt) "alg") ;;
          throw_if (negb (truthy hashAlg)
                    || negb (strict_eq (length_of hashAlg) (JNum 5)))
            ("Unsupported alg: " ++ toString hashAlg)%string ;;
          match hashAlg with
          | JStr alg =>
              let hashBitsString := String.substring 2 3 alg in
              throw_if (negb (present (Some hashBitsString)))
                ("Unsupported alg: " ++ alg)%string ;;
              match parseInt hashBitsString with
              | Some hashBits =>
                  throw_if (negb (supported_bits hashBits))
                    ("Unsupported alg: " ++ alg)%string ;;
                  let sha := ("sha" ++ num_toString hashBits)%string in
                  let hash := hashString access_token sha in
                  throw_if (negb (present (Some hash)))
                    "Failed to validate at_hash" ;;
                  let left :=
                    String.substring 0 (String.length hash / 2) hash in
                  let left_b64u := hexToBase64Url left in
                  throw_if (negb (strict_eq (JStr left_b64u) at_hash))
                    "Failed to validate at_hash"
              | None => throw (Error ("Unsupported alg: " ++ alg)%string)
              end
          | _ => throw TypeError
          end
      end
  end.

Definition _validateTokens (state : SigninState.t) : ST Store unit :=
  r <- gets response ;;
  if present (SigninResponse.code r) then _processCode state
  else
    match nonempty (SigninResponse.id_token r) with
    | Some id_token =>
        match nonempty (SigninResponse.access_token r) with
        | Some access_token =>
            _validateIdToken state id_token ;;
            _validateAccessToken access_token
        | None => _validateIdToken state id_token
        end
    | None => ret tt
    end.

Definition validateSigninResponse (state : SigninState.t)
  : ST Store SigninResponse.t :=
  _processSigninParams state ;;
  _validateTokens state ;;
  _processClaims state ;;
  gets response.

End Validator.

(** ** Vocabulary of the statements *)

(** The guards [_processSigninParams] runs before it copies the data. *)
Definition correlated (settings : Settings.t) (state : SigninState.t)
    (r : SigninResponse.t) : bool :=
  strict_eq (JStr (SigninState.id state)) (SigninResponse.state r)
  && present (SigninState.client_id state)
  && present (SigninState.authority state)
  && strict_eq (of_opt (Settings.authority settings))
       (of_opt (SigninState.authority state))
  && negb (present (Settings.client_id settings)
           && negb (strict_eq (of_opt (Settings.client_id settings))
                      (of_opt (SigninState.client_id state)))).

(** A JSON object, as every entry of a key set is. *)
Definition is_object (v : JsValue) : bool :=
  match v with JObj _ => true | _ => false end.

(** The key carries [value] under [name]. *)
Definition has (name : string) (value : JsValue) (key : JsValue) : bool :=
  match prop key name with
  | Some v => strict_eq v value
  | None => false
  end.

(** The key type of an algorithm family, in the words of the specification:
    [RS*] is RSA, [PS*] is PS, [ES*] is EC, no other family is supported. *)
Definition family_kty (alg : string) : option string :=
  if String.prefix "RS" alg then Some "RSA"
  else if String.prefix "PS" alg then Some "PS"
  else if String.prefix "ES" alg then Some "EC"
  else None.

(** The keys of the family of [alg]. *)
Definition candidates (alg : string) (keys : list JsValue) : list JsValue :=
  match family_kty alg with
  | Some kty => filter (has "kty" (JStr kty)) keys
  | None => []
  end.

(** The left half of a digest. *)
Definition left_half (hash : string) : string :=
  String.substring 0 (String.length hash / 2) hash.

(** What one turn of the inner loop of [_mergeClaims] leaves in
    [result[name]], from what it found there. *)
Definition merged (deep : bool) (recur : JsValue -> JsValue)
    (current value : JsValue) : JsValue :=
  if negb (truthy current) then value
  else
    match current with
    | JArr items =>
        if index_of_negative items value then JArr (items ++ [value])
        else current
    | _ =>
        if negb (strict_eq current value) then
          if typeof_object value && deep then recur current
          else JArr [current; value]
        else current
    end.

(** What the loop of [_mergeClaims] over the values of one name of
    [claims2] does to [result]. *)
Definition merge_name (settings : Settings.t) (name : string)
    (values : JsValue) (result : Obj) : Obj :=
  let each value :=
    merge_value (Settings.mergeClaims settings)
      (fun current => _mergeClaims settings current value) name value in
  match values with
  | JArr items => fold_left (fun result value => each value result) items result
  | value => each value result
  end.

(** A computation that leaves a part of the response as it found it. *)
Definition keeps {A B : Type} (part : SigninResponse.t -> B)
    (c : ST Store A) : Prop :=
  forall s r s', c s = (r, s') -> part (response s') = part (response s).

(** The fields a code exchange folds into the response. *)
Definition exchanged (r : SigninResponse.t) :=
  (SigninResponse.error r, SigninResponse.error_description r,
   SigninResponse.error_uri r, SigninResponse.id_token r,
   SigninResponse.session_state r, SigninResponse.access_token r,
   SigninResponse.token_type r, SigninResponse.scope r,
   SigninResponse.expires_in r).

(** The request [_processCode] sends to the token endpoint. *)
Definition token_request (state : SigninState.t) (r : SigninResponse.t)
  : Obj :=
  let request :=
    [("client_id", of_opt (SigninState.client_id state));
     ("client_secret", of_opt (SigninState.client_secret state));
     ("code", of_opt (SigninResponse.code r));
     ("redirect_uri", of_opt (SigninState.redirect_uri state));
     ("code_verifier",
      or_else (of_opt (SigninState.code_verifier state)) (JStr ""))] in
  if truthy (SigninState.extraTokenParams state)
     && typeof_object (SigninState.extraTokenParams state)
  then assign request (SigninState.extraTokenParams state)
  else request.

(** First-non-empty-wins on a string field. *)
Definition first_nonempty_wins (server prior result : option string) : Prop :=
  (present server = true -> result = server)
  /\ (present server = false -> result = prior).

(** The rule of [expires_in]: the integer [parseInt] reads from the server
    value wins when there is one and it is not zero. *)
Definition parsed_wins (server : JsValue) (prior result : option Z) : Prop :=
  (forall n, parseInt (toString server) = Some n -> n <> 0%Z ->
             result = Some n)
  /\ (parseInt (toString server) = None
      \/ parseInt (toString server) = Some 0%Z ->
      result = prior).

(** Unfolds the monad and evaluates what the hypotheses already decide. *)
Ltac st_unfold :=
  unfold bind, gets, throw_if, throw, ret, update, modify, settle, defined,
    in_world;
  cbn -[strict_eq present of_opt truthy].

(** Runs a chain of guards: [known] rewrites with the facts at hand, the
    guards left undecided are split. *)
Ltac run_guards known :=
  cbn -[strict_eq present of_opt truthy]; known;
  cbn -[strict_eq present of_opt truthy];
  try (match goal with
       | |- context [if ?b then _ else _] => destruct b
       end; run_guards known).

Ltac st_cases :=
  repeat match goal with
         | |- context [if ?b then _ else _] =>
             destruct b; cbn -[strict_eq present of_opt truthy]
         end.


(** ** A sample deployment, for the closed examples *)

Module Sample.

Definition settings : Settings.t :=
  Settings.mk (Some "https://idp.example") None None None JUndefined
    (Some "app") 300 true true false.

(** The same deployment with deep merging of claims. *)
Definition merging : Settings.t :=
  Settings.mk (Some "https://idp.example") None None None JUndefined
    (Some "app") 300 true true true.

(** A deployment that configures both an authority and static metadata,
    with a seed on top. *)
Definition static : Settings.t :=
  Settings.mk (Some "https://idp.example") None
    (Some [("issuer", JStr "https://static.example")])
    (Some [("issuer", JStr "https://seed.example")]) JUndefined
    (Some "app") 300 true true false.

(** A deployment that seeds the discovery document. *)
Definition seeded : Settings.t :=
  Settings.mk (Some "https://idp.example/") None None
    (Some [("issuer", JStr "https://seed.example");
           ("token_endpoint", JStr "https://idp.example/token")])
    JUndefined (Some "app") 300 true true false.

(** A deployment without authority, metadata URL or metadata. *)
Definition unconfigured : Settings.t :=
  Settings.mk None None None None JUndefined (Some "app") 300 true true false.

(** A fetcher that serves a discovery document and a key set. *)
Definition getJson (_ : list Event) (url : JsValue) : Result JsValue :=
  if strict_eq url (JStr "https://idp.example/.well-known/openid-configuration")
  then Ok (JObj [("issuer", JStr "https://idp.example");
                 ("jwks_uri", JStr "https://idp.example/jwks")])
  else if strict_eq url (JStr "https://idp.example/jwks")
  then Ok (JObj [("keys",
                  JArr [JObj [("kid", JStr "k1"); ("kty", JStr "RSA")];
                        JObj [("kid", JStr "k2"); ("kty", JStr "EC")]])])
  else Throw (Rejected (JStr "not found")).

(** The same fetcher behind a network that drops the first request. *)
Definition flaky (requests : list Event) (url : JsValue) : Result JsValue :=
  match requests with
  | [] => Throw (Rejected (JStr "timeout"))
  | _ => getJson requests url
  end.

Definition tokenResponse : TokenResponse.t :=
  TokenResponse.mk None None None None None (Some "at-2") (Some "Bearer")
    None (JStr "abc").

Definition exchangeCode (_ : Obj) : ST World TokenResponse.t :=
  ret tokenResponse.

Definition getClaims (_ : string) : ST World JsValue :=
  ret (JObj [("sub", JStr "xyz"); ("name", JStr "Alice")]).

Definition jwt : Jwt.t :=
  Jwt.mk (JObj [("alg", JStr "RS256"); ("kid", JStr "k1")])
    (JObj [("sub", JStr "abc"); ("nonce", JStr "n-1");
           ("at_hash", JStr "left-b64u")]).

(** A token signed with a key the provider does not publish. *)
Definition unknown_jwt : Jwt.t :=
  Jwt.mk (JObj [("alg", JStr "RS256"); ("kid", JStr "k9")])
    (JObj [("sub", JStr "abc"); ("nonce", JStr "n-1")]).

Definition parseJwt (token : string) : option Jwt.t :=
  if (token =? "header.payload.signature")%string then Some jwt
  else if (token =? "unknown.payload.signature")%string then Some unknown_jwt
  else None.

Definition validateJwtAttributes (token : string) (issuer : JsValue)
    (audience : option string) (skew now : Z) : Result JsValue :=
  Ok (Jwt.payload jwt).

Definition validateJwt (token : string) (key issuer : JsValue)
    (audience : option string) (skew : Z) : Result unit :=
  Ok tt.

Definition hashString (value digest : string) : string :=
  (value ++ ":" ++ digest)%string.

Definition hexToBase64Url (hex : string) : string :=
  if (hex =? "token:")%string then "left-b64u" else hex.

Definition Date_now (_ : World) : Z := 1700000000000.

Definition isOpenIdConnect (r : SigninResponse.t) : bool :=
  present (SigninResponse.id_token r).

Definition world : World := mkWorld (constructor settings) [].

Definition k1 : JsValue := JObj [("kid", JStr "k1"); ("kty", JStr "RSA")].
Definition k2 : JsValue := JObj [("kid", JStr "k2"); ("kty", JStr "EC")].

(** The world once the discovery document and the key set are fetched. *)
Definition fetched : World :=
  mkWorld
    (MetadataService.mk
       (Some "https://idp.example/.well-known/openid-configuration")
       (JArr [k1; k2])
       (Some [("issuer", JStr "https://idp.example");
              ("jwks_uri", JStr "https://idp.example/jwks")]))
    [GetJson (JStr "https://idp.example/.well-known/openid-configuration");
     GetJson (JStr "https://idp.example/jwks")].

(** The same after a second fetch of the key set. *)
Definition refetched : World :=
  mkWorld (service fetched)
    (log fetched ++ [GetJson (JStr "https://idp.example/jwks")]).

(** A service that still caches the key set of before a rotation. *)
Definition stale : World :=
  set_signingKeys (JArr [JObj [("kid", JStr "k0"); ("kty", JStr "RSA")]])
    world.

Definition state : SigninState.t :=
  SigninState.mk "s-1" (JStr "app-data") (Some "app") None
    (Some "https://idp.example") (Some "https://app.example/cb")
    (Some "n-1") None (Some "openid") JUndefined None.

(** An implicit-flow answer to [state]. *)
Definition answer : SigninResponse.t :=
  SigninResponse.mk (JStr "s-1") None None None None
    (Some "header.payload.signature") None (Some "token") (Some "Bearer")
    None (Some 3600%Z) JUndefined.

(** The same answer once its id_token is validated. *)
Definition validated : SigninResponse.t :=
  SigninResponse.set_profile (Jwt.payload jwt) answer.

(** A correlated answer of the code flow, about to be exchanged. *)
Definition coded : SigninResponse.t :=
  SigninResponse.mk (JStr "app-data") (Some "code-1") None None None
    None None (Some "at-1") None None (Some 3600%Z) JUndefined.

(** An answer that belongs to another request. *)
Definition forged : SigninResponse.t :=
  SigninResponse.set_state (JStr "s-2") answer.

(** An answer in which the provider reports an error. *)
Definition denied : SigninResponse.t :=
  SigninResponse.mk (JStr "s-1") None (Some "access_denied") None None
    None None None None None None JUndefined.

(** An answer without the id_token the nonce asks for. *)
Definition bare : SigninResponse.t :=
  SigninResponse.mk (JStr "s-1") None None None None
    None None None None None None JUndefined.

(** A stored request that lost its client_id. *)
Definition anonymous : SigninState.t :=
  SigninState.mk "s-1" (JStr "app-data") None None
    (Some "https://idp.example") (Some "https://app.example/cb")
    (Some "n-1") None (Some "openid") JUndefined None.

Definition signout_state : State.t := State.mk "o-1" (JStr "app-data").

Definition signout_forged : SignoutResponse.t :=
  SignoutResponse.mk (JStr "o-2") None None None.

Definition signout_denied : SignoutResponse.t :=
  SignoutResponse.mk (JStr "o-1") (Some "access_denied") None None.

(** The validator of the sample deployment. *)
Definition validate (state : SigninState.t) : ST Store SigninResponse.t :=
  validateSigninResponse settings getJson exchangeCode getClaims parseJwt
    validateJwtAttributes validateJwt hashString hexToBase64Url Date_now
    isOpenIdConnect state.

End Sample.


(** ** The remaining accessors of the metadata service *)

Section MetadataAccessors.

Variable settings : Settings.t.
Variable getJson : list Event -> JsValue -> Result JsValue.

Definition getAuthorizationEndpoint : ST World JsValue :=
  _getMetadataProperty settings getJson "authorization_endpoint" false.

Definition getUserInfoEndpoint : ST World JsValue :=
  _getMetadataProperty settings getJson "userinfo_endpoint" false.

Definition getTokenEndpoint (optional : bool) : ST World JsValue :=
  _getMetadataProperty settings getJson "token_endpoint" optional.

Definition getCheckSessionIframe : ST World JsValue :=
  _getMetadataProperty settings getJson "check_session_iframe" true.

Definition getEndSessionEndpoint : ST World JsValue :=
  _getMetadataProperty settings getJson "end_session_endpoint" true.

Definition getRevocationEndpoint : ST World JsValue :=
  _getMetadataProperty settings getJson "revocation_endpoint" true.

(** The typed accessors with the property each reads and whether a missing
    property is tolerated, [getTokenEndpoint] and [getKeysEndpoint] in both
    of their modes. *)
Definition accessors : list (ST World JsValue * string * bool) :=
  [(getIssuer settings getJson, "issuer", false);
   (getAuthorizationEndpoint, "authorization_endpoint", false);
   (getUserInfoEndpoint, "userinfo_endpoint", false);
   (getTokenEndpoint true, "token_endpoint", true);
   (getTokenEndpoint false, "token_endpoint", false);
   (getCheckSessionIframe, "check_session_iframe", true);
   (getEndSessionEndpoint, "end_session_endpoint", true);
   (getRevocationEndpoint, "revocation_endpoint", true);
   (getKeysEndpoint settings getJson true, "jwks_uri", true);
   (getKeysEndpoint settings getJson false, "jwks_uri", false)].

End MetadataAccessors.

(** ** The in-memory web storage *)

Module InMemoryWebStorage.

(** The [_data] object: its own properties in creation order. *)
Record t : Type := mk {
  _data : list (string * string)
}.

(** The names a plain object inherits from [Object.prototype]. *)
Definition inherited : list string :=
  ["constructor"; "__defineGetter__"; "__defineSetter__"; "hasOwnProperty";
   "__lookupGetter__"; "__lookupSetter__"; "isPrototypeOf";
   "propertyIsEnumerable"; "toString"; "valueOf"; "__proto__";
   "toLocaleString"].

Fixpoint own (data : list (string * string)) (key : string) : option string :=
  match data with
  | [] => None
  | (k, v) :: rest => if k =? key then Some v else own rest key
  end.

(** [data[key] = value] on a plain object: an assignment to [__proto__]
    runs the inherited setter, which ignores a string; an existing property
    keeps its place, a new one goes last. *)
Fixpoint assign_own (data : list (string * string)) (key value : string)
  : list (string * string) :=
  match data with
  | [] => [(key, value)]
  | (k, v) :: rest =>
      if k =? key then (k, value) :: rest
      else (k, v) :: assign_own rest key value
  end.

(** The digits of a decimal numeral, most significant first. *)
Fixpoint decimal (s : string) (acc : N) : option N :=
  match s with
  | EmptyString => Some acc
  | String c rest =>
      let n := N.of_nat (nat_of_ascii c) in
      if ((48 <=? n) && (n <=? 57))%N
      then decimal rest (10 * acc + (n - 48))%N
      else None
  end.

(** An array index: the canonical numeral of an integer below 2^32 - 1. *)
Definition array_index (s : string) : option N :=
  match s with
  | EmptyString => None
  | _ =>
      match decimal s 0%N with
      | Some n =>
          if (n <=? 4294967294)%N
             && (NilEmpty.string_of_uint (N.to_uint n) =? s)
          then Some n else None
      | None => None
      end
  end.

Fixpoint insert_index (entry : N * string) (sorted : list (N * string))
  : list (N * string) :=
  match sorted with
  | [] => [entry]
  | e :: rest =>
      if (fst entry <=? fst e)%N then entry :: sorted
      else e :: insert_index entry rest
  end.

(** The names that are array indices, in ascending numeric order. *)
Fixpoint index_names (names : list string) : list (N * string) :=
  match names with
  | [] => []
  | name :: rest =>
      match array_index name with
      | Some n => insert_index (n, name) (index_names rest)
      | None => index_names rest
      end
  end.

(** [Object.getOwnPropertyNames(data)]: array indices in ascending order,
    then the other names in creation order. *)
Definition getOwnPropertyNames (data : list (string * string)) : list string :=
  map snd (index_names (map fst data))
  ++ filter (fun name =>
               match array_index name with Some _ => false | None => true end)
       (map fst data).

Definition constructor : t := mk [].

Definition clear (s : t) : t := mk [].

(** [this._data[key]]: the own property, or what the prototype holds. *)
Definition getItem (s : t) (key : string) : JsValue :=
  match own (_data s) key with
  | Some value => JStr value
  | None =>
      if existsb (String.eqb key) inherited then JBuiltin key else JUndefined
  end.

Definition setItem (s : t) (key value : string) : t :=
  if key =? "__proto__" then s
  else mk (assign_own (_data s) key value).

Definition removeItem (s : t) (key : string) : t :=
  mk (filter (fun kv => negb (fst kv =? key)) (_data s)).

Definition length (s : t) : nat :=
  List.length (getOwnPropertyNames (_data s)).

(** [key(index)] for an integral index. *)
Definition key (s : t) (index : Z) : JsValue :=
  if (index <? 0)%Z then JUndefined
  else
    match nth_error (getOwnPropertyNames (_data s)) (Z.to_nat index) with
    | Some name => JStr name
    | None => JUndefined
    end.

(** The storages a program can build. *)
Inductive reachable : t -> Prop :=
| reach_new : reachable constructor
| reach_clear s : reachable s -> reachable (clear s)
| reach_set s key value : reachable s -> reachable (setItem s key value)
| reach_remove s key : reachable s -> reachable (removeItem s key).

End InMemoryWebStorage.

(** ** The timer *)

Module Timer.

Import QArith_base.

(** What a timer does to the outside: arm an interval, clear one, raise its
    event. *)
Inductive Effect : Type :=
| SetInterval (milliseconds : Z)
| ClearInterval (handle : Z)
| Raise.

(** The fields of a [Timer] and the effects it has had. *)
Record t : Type := mk {
  _timerHandle : option Z;
  _expiration : Z;
  effects : list Effect
}.

Definition DefaultTimerDurationInSeconds : Z := 5.

(** [if (this._timerHandle)] *)
Definition armed (s : t) : bool :=
  match _timerHandle s with
  | Some handle => negb (handle =? 0)%Z
  | None => false
  end.

Section Timer.

(** [this._timer.setInterval]: the handle it returns may depend on what
    happened before. *)
Variable setInterval : list Effect -> Z -> Z.

Definition expiration (s : t) : Z := _expiration s.

Definition cancel (s : t) : t :=
  match _timerHandle s with
  | Some handle =>
      if negb (handle =? 0)%Z
      then mk None (_expiration s) (effects s ++ [ClearInterval handle])
      else s
  | None => s
  end.

(** [init(durationInSeconds)] when [Timer.getEpochTime()] answers [now]. *)
Definition init (now : Z) (durationInSeconds : Q) (s : t) : t :=
  let durationInSeconds :=
    if Qle_bool durationInSeconds (Qmake 0 1) then Qmake 1 1
    else durationInSeconds in
  let durationInSeconds := Qround.Qfloor durationInSeconds in
  let expiration' := (now + durationInSeconds)%Z in
  if (expiration s =? expiration')%Z && armed s then s
  else
    let s := cancel s in
    let timerDurationInSeconds :=
      if (durationInSeconds <? DefaultTimerDurationInSeconds)%Z
      then durationInSeconds else DefaultTimerDurationInSeconds in
    let milliseconds := (timerDurationInSeconds * 1000)%Z in
    mk (Some (setInterval (effects s) milliseconds)) expiration'
       (effects s ++ [SetInterval milliseconds]).

(** [_callback()] when [Timer.getEpochTime()] answers [now]. *)
Definition _callback (now : Z) (s : t) : t :=
  if (_expiration s <=? now)%Z then
    let s := cancel s in
    mk (_timerHandle s) (_expiration s) (effects s ++ [Raise])
  else s.

End Timer.

(** A timer as the class creates it. *)
Definition fresh : t := mk None 0 [].

End Timer.

(** What reading a property makes of the outcome of [getMetadata]. *)
Definition read (name : string) (optional : bool)
    (outcome : Result Obj * World) : Result JsValue * World :=
  match outcome with
  | (Ok metadata, w') =>
      (if strict_eq (get metadata name) JUndefined then
         if optional then Ok JUndefined
         else Throw (Error ("Metadata does not contain property "
                              ++ name)%string)
       else Ok (get metadata name),
       w')
  | (Throw e, w') => (Throw e, w')
  end.


(** ** Further sample data *)

Module Fixture.

(** A fetcher whose documents are all empty objects. *)
Definition hollow (_ : list Event) (_ : JsValue) : Result JsValue :=
  Ok (JObj []).

(** The sample service with its document cached and no keys. *)
Definition keyless : World :=
  set_signingKeys JNull (mkWorld (service Sample.fetched) []).

(** The service of the static deployment, which knows no [jwks_uri]. *)
Definition static : World := mkWorld (constructor Sample.static) [].

(** A user-info service that agrees with the id_token on the subject. *)
Definition getClaims (_ : string) : ST World JsValue :=
  ret (JObj [("sub", JStr "abc"); ("name", JStr "Alice");
             ("roles", JArr [JStr "admin"; JStr "user"])]).

(** The sample validator with that user-info service. *)
Definition validate (state : SigninState.t) : ST Store SigninResponse.t :=
  validateSigninResponse Sample.settings Sample.getJson Sample.exchangeCode
    getClaims Sample.parseJwt Sample.validateJwtAttributes Sample.validateJwt
    Sample.hashString Sample.hexToBase64Url Sample.Date_now
    Sample.isOpenIdConnect state.

(** The sample request, asking to skip user info. *)
Definition skipping : SigninState.t :=
  SigninState.mk "s-1" (JStr "app-data") (Some "app") None
    (Some "https://idp.example") (Some "https://app.example/cb")
    (Some "n-1") None (Some "openid") JUndefined (Some true).

(** A plain OAuth request: no nonce, no code_verifier. *)
Definition plain_state : SigninState.t :=
  SigninState.mk "s-1" (JStr "app-data") (Some "app") None
    (Some "https://idp.example") (Some "https://app.example/cb")
    None None (Some "api") JUndefined None.

(** Its answer: an access token and nothing to validate. *)
Definition plain : SigninResponse.t :=
  SigninResponse.mk (JStr "s-1") None None None None
    None None (Some "token") (Some "Bearer") None (Some 3600%Z) JUndefined.

(** A token endpoint that refuses the code. *)
Definition refusing (_ : Obj) : ST World TokenResponse.t :=
  throw (Rejected (JStr "invalid_grant")).

(** The profile the sample validation ends with. *)
Definition profile : JsValue :=
  JObj [("sub", JStr "abc"); ("name", JStr "Alice");
        ("roles", JArr [JStr "admin"; JStr "user"])].

End Fixture.


(** ** Vocabulary of the further statements *)

(** The presence laws [_processSigninParams] enforces: an id_token answers a
    nonce and a code answers a code_verifier, and only then. *)
Definition consistent (state : SigninState.t) (r : SigninResponse.t) : bool :=
  Bool.eqb (present (SigninState.nonce state))
    (present (SigninResponse.id_token r))
  && Bool.eqb (present (SigninState.code_verifier state))
       (present (SigninResponse.code r)).

(** The response [_processSigninParams] leaves when it accepts. *)
Definition correlated_response (state : SigninState.t)
    (r : SigninResponse.t) : SigninResponse.t :=
  SigninResponse.set_scope
    (opt_or (SigninResponse.scope r) (SigninState.scope state))
    (SigninResponse.set_state (SigninState.data state) r).


(** ** Vocabulary of the timer and storage statements *)

Module TimerRuns.

Import Timer.

Section Runs.

Variable setInterval : list Effect -> Z -> Z.

(** The handles that were set and not cleared, replaying the effects: the
    handle of an interval is the one [setInterval] returned at that point. *)
Fixpoint replay (done todo : list Effect) (live : list Z) : list Z :=
  match todo with
  | [] => live
  | SetInterval ms :: rest =>
      replay (done ++ [SetInterval ms]) rest (setInterval done ms :: live)
  | ClearInterval handle :: rest =>
      replay (done ++ [ClearInterval handle]) rest
        (List.remove Z.eq_dec handle live)
  | Raise :: rest => replay (done ++ [Raise]) rest live
  end.

Definition outstanding (s : t) : list Z := replay [] (effects s) [].

(** What a timer should hold: a handle that is not zero, which is the one
    interval outstanding, or no handle and no interval. *)
Definition holds_its_interval (s : t) : Prop :=
  match _timerHandle s with
  | Some handle => handle <> 0%Z /\ outstanding s = [handle]
  | None => outstanding s = []
  end.

(** The timers a program can reach from a new one. *)
Inductive reachable : t -> Prop :=
| reach_fresh : reachable fresh
| reach_init now duration s :
    reachable s -> reachable (init setInterval now duration s)
| reach_cancel s : reachable s -> reachable (cancel s)
| reach_callback now s : reachable s -> reachable (_callback now s).

End Runs.

(** A browser-like source of handles: 1, 2, 3, ... *)
Definition counting (done : list Effect) (_ : Z) : Z :=
  Z.of_nat (S (List.length done)).

End TimerRuns.

Module StorageSample.

Import InMemoryWebStorage.

(** A storage with three keys, two of them array indices. *)
Definition three : t :=
  setItem (setItem (setItem constructor "b" "2") "10" "x") "9" "y".

End StorageSample.


Module TimerSample.

(** A timer initialised at time 100 for three and a half seconds. *)
Definition running : Timer.t :=
  Timer.init TimerRuns.counting 100 (QArith_base.Qmake 7 2) Timer.fresh.

(** The same timer initialised again, later, for a minute. *)
Definition rearmed : Timer.t :=
  Timer.init TimerRuns.counting 102 (QArith_base.Qmake 60 1) running.

End TimerSample.

(** * Properties *)

(** ** Values and the monad *)

Lemma strict_eq_JStr (s : string) (v : JsValue) :
  strict_eq (JStr s) v = true <-> v = JStr s.
Proof.
  destruct v; simpl; split; try discriminate; intro H.
  - apply String.eqb_eq in H. now subst.
  - injection H as ->. apply String.eqb_refl.
Qed.

Lemma strict_eq_JStr_false (s : string) (v : JsValue) :
  strict_eq (JStr s) v = false <-> v <> JStr s.
Proof.
  rewrite <- strict_eq_JStr. destruct (strict_eq (JStr s) v); split;
    congruence.
Qed.

Lemma strict_eq_of_opt (a b : option string) :
  strict_eq (of_opt a) (of_opt b) = true <-> a = b.
Proof.
  destruct a as [a|], b as [b|]; simpl; split; try discriminate;
    try reflexivity; intro H.
  - apply String.eqb_eq in H. now subst.
  - injection H as ->. apply String.eqb_refl.
Qed.

Lemma bind_throws {S A B : Type} (c : ST S A) (k : A -> ST S B) s e s' :
  c s = (Throw e, s') -> bind c k s = (Throw e, s').
Proof. unfold bind. now intros ->. Qed.

Lemma bind_returns {S A B : Type} (c : ST S A) (k : A -> ST S B) s a s' :
  c s = (Ok a, s') -> bind c k s = k a s'.
Proof. unfold bind. now intros ->. Qed.

Lemma bind_inv {S A B : Type} (c : ST S A) (k : A -> ST S B) s r s' :
  bind c k s = (r, s') ->
  (exists e, c s = (Throw e, s') /\ r = Throw e) \/
  (exists a s1, c s = (Ok a, s1) /\ k a s1 = (r, s')).
Proof.
  unfold bind. destruct (c s) as [[a|e] s1]; intro H.
  - right. now exists a, s1.
  - left. exists e. now inversion H.
Qed.

Section SigninParams.

Variable settings : Settings.t.

Lemma processSigninParams_mismatch state r w :
  strict_eq (JStr (SigninState.id state)) (SigninResponse.state r) = false ->
  _processSigninParams settings state (mkStore r w)
  = (Throw (Error "State does not match"), mkStore r w).
Proof.
  intro H. unfold _processSigninParams. st_unfold. now rewrite H.
Qed.

(** After the guards the data is copied, whatever follows. *)
Lemma processSigninParams_correlated state r w res s' :
  correlated settings state r = true ->
  _processSigninParams settings state (mkStore r w) = (res, s') ->
  SigninResponse.state (response s') = SigninState.data state /\ world s' = w.
Proof.
  unfold correlated. intro H.
  repeat (apply andb_prop in H; destruct H as [H ?]).
  match goal with H1 : negb _ = true |- _ => apply negb_true_iff in H1 end.
  unfold _processSigninParams. st_unfold.
  repeat match goal with H1 : _ = _ |- _ => rewrite H1 end.
  cbn -[strict_eq present of_opt truthy].
  st_cases; intro E; inversion E; subst; simpl; auto.
Qed.

End SigninParams.


(** ** What the later stages leave untouched *)

Section Keeps.

Context {B : Type} (part : SigninResponse.t -> B).

Lemma keeps_ret {A : Type} (a : A) : keeps part (ret a).
Proof. intros s r s' E. now inversion E. Qed.

Lemma keeps_throw {A : Type} (e : Failure) : keeps part (@throw Store A e).
Proof. intros s r s' E. now inversion E. Qed.

Lemma keeps_throw_if (cond : bool) (message : string) :
  keeps part (throw_if cond message).
Proof. destruct cond; [apply keeps_throw | apply keeps_ret]. Qed.

Lemma keeps_gets {A : Type} (f : Store -> A) : keeps part (gets f).
Proof. intros s r s' E. now inversion E. Qed.

Lemma keeps_settle {A : Type} (x : Result A) : keeps part (settle x).
Proof. intros s r s' E. now inversion E. Qed.

Lemma keeps_defined {A : Type} (o : option A) : keeps part (defined o).
Proof. destruct o; [apply keeps_ret | apply keeps_throw]. Qed.

Lemma keeps_in_world {A : Type} (c : ST World A) : keeps part (in_world c).
Proof.
  intros s r s'. unfold in_world. destruct (c (world s)) as [x w].
  intro E. now inversion E.
Qed.

Lemma keeps_update (f : SigninResponse.t -> SigninResponse.t) :
  (forall r, part (f r) = part r) -> keeps part (update f).
Proof. intros Hf s r s' E. inversion E. simpl. apply Hf. Qed.

Lemma keeps_bind {A C : Type} (c : ST Store A) (k : A -> ST Store C) :
  keeps part c -> (forall a, keeps part (k a)) -> keeps part (bind c k).
Proof.
  intros Hc Hk s r s' E. apply bind_inv in E.
  destruct E as [(e & E & _) | (a & s1 & E1 & E2)].
  - now apply Hc in E.
  - apply Hc in E1. apply Hk in E2. congruence.
Qed.

End Keeps.

(** Decomposes a pipeline stage into the combinators above. *)
Ltac keeps :=
  repeat first
    [ apply keeps_ret | apply keeps_throw | apply keeps_throw_if
    | apply keeps_gets | apply keeps_settle | apply keeps_defined
    | apply keeps_in_world
    | apply keeps_update; intros; reflexivity
    | apply keeps_bind; [ | intros ]
    | assumption
    | match goal with
      | |- keeps _ (if ?b then _ else _) => destruct b
      | |- keeps _ (match ?x with _ => _ end) => destruct x
      end ].

Section Pipeline.

Variable settings : Settings.t.
Variable getJson : list Event -> JsValue -> Result JsValue.
Variable exchangeCode : Obj -> ST World TokenResponse.t.
Variable getClaims : string -> ST World JsValue.
Variable parseJwt : string -> option Jwt.t.
Variable validateJwtAttributes :
  string -> JsValue -> option string -> Z -> Z -> Result JsValue.
Variable validateJwt :
  string -> JsValue -> JsValue -> option string -> Z -> Result unit.
Variable hashString : string -> string -> string.
Variable hexToBase64Url : string -> string.
Variable Date_now : World -> Z.
Variable isOpenIdConnect : SigninResponse.t -> bool.

Local Abbreviation signin :=
  (validateSigninResponse settings getJson exchangeCode getClaims parseJwt
     validateJwtAttributes validateJwt hashString hexToBase64Url Date_now
     isOpenIdConnect).
Local Abbreviation tokens :=
  (_validateTokens settings getJson exchangeCode parseJwt
     validateJwtAttributes validateJwt hashString hexToBase64Url Date_now).
Local Abbreviation claims_stage :=
  (_processClaims settings getClaims isOpenIdConnect).

Lemma keeps_validateIdTokenAttributes state id_token :
  keeps SigninResponse.state
    (_validateIdTokenAttributes settings getJson validateJwtAttributes
       Date_now state id_token).
Proof. unfold _validateIdTokenAttributes. keeps. Qed.

Lemma validateIdTokenAttributes_keeps_exchanged state id_token :
  keeps exchanged
    (_validateIdTokenAttributes settings getJson validateJwtAttributes
       Date_now state id_token).
Proof. unfold _validateIdTokenAttributes. keeps. Qed.

Lemma keeps_processCode state :
  keeps SigninResponse.state
    (_processCode settings getJson exchangeCode validateJwtAttributes
       Date_now state).
Proof.
  pose proof (keeps_validateIdTokenAttributes state).
  unfold _processCode. keeps.
Qed.

Lemma keeps_validateIdToken state id_token :
  keeps SigninResponse.state
    (_validateIdToken settings getJson parseJwt validateJwt state id_token).
Proof. unfold _validateIdToken. keeps. Qed.

Lemma keeps_validateAccessToken access_token :
  keeps SigninResponse.state
    (_validateAccessToken parseJwt hashString hexToBase64Url access_token).
Proof. unfold _validateAccessToken. keeps. Qed.

Lemma keeps_validateTokens state : keeps SigninResponse.state (tokens state).
Proof.
  pose proof (keeps_processCode state).
  pose proof (keeps_validateIdToken state).
  pose proof keeps_validateAccessToken.
  unfold _validateTokens. keeps.
Qed.

Lemma keeps_processClaims state : keeps SigninResponse.state (claims_stage state).
Proof. unfold _processClaims. keeps. Qed.

(** The stages after [_processSigninParams] never touch [response.state]. *)
Lemma later_stages_keep_state state :
  keeps SigninResponse.state (tokens state ;; claims_stage state ;; gets response).
Proof.
  pose proof (keeps_validateTokens state).
  pose proof (keeps_processClaims state).
  keeps.
Qed.

(** C1. Whenever [response.state] differs from [state.id], sign-in
    validation and sign-out validation both throw "State does not match";
    the sign-in store (response, metadata caches, request log) is returned
    exactly as it was received, so no metadata fetch, key fetch, token
    exchange or user-info fetch took place, and sign-out validation has no
    access to the network at all. *)
Theorem state_mismatch_fails_before_any_network_call :
  (forall state r w,
      SigninResponse.state r <> JStr (SigninState.id state) ->
      signin state (mkStore r w)
      = (Throw (Error "State does not match"), mkStore r w))
  /\ (forall state r,
         SignoutResponse.state r <> JStr (State.id state) ->
         validateSignoutResponse state r
         = (Throw (Error "State does not match"), r)).
Proof.
  split.
  - intros state r w H. apply strict_eq_JStr_false in H.
    unfold validateSigninResponse. apply bind_throws.
    now apply processSigninParams_mismatch.
  - intros state r H. apply strict_eq_JStr_false in H.
    unfold validateSignoutResponse. st_unfold. now rewrite H.
Qed.

(** C2, as amended. Once the guards that precede the copy have passed (the
    state id matches and, for sign-in, client_id and authority are present
    and agree with the settings), every failure of the validation leaves
    [state.data] in [response.state]. *)
Theorem data_copied_before_every_later_failure :
  (forall state r w e s',
      correlated settings state r = true ->
      signin state (mkStore r w) = (Throw e, s') ->
      SigninResponse.state (response s') = SigninState.data state)
  /\ (forall state r e r',
         SignoutResponse.state r = JStr (State.id state) ->
         validateSignoutResponse state r = (Throw e, r') ->
         SignoutResponse.state r' = State.data state).
Proof.
  split.
  - intros state r w e s' Hc E. unfold validateSigninResponse in E.
    apply bind_inv in E. destruct E as [(e' & E & _) | ([] & s1 & E1 & E2)].
    + now apply (processSigninParams_correlated _ _ _ _ _ _ Hc) in E.
    + apply (processSigninParams_correlated _ _ _ _ _ _ Hc) in E1.
      apply later_stages_keep_state in E2. destruct E1. congruence.
  - intros state r e r' H. apply strict_eq_JStr in H.
    unfold validateSignoutResponse. st_unfold. rewrite H.
    cbn -[present]. destruct (present (SignoutResponse.error r));
      intro E; now inversion E.
Qed.

(** C3. For a correlated sign-in response that carries no error,
    validation fails when [state.nonce] is set and [response.id_token] is
    absent, when the nonce is absent and the id_token present, and likewise
    for [state.code_verifier] against [response.code]; set and absent are
    the truthiness the code tests.  The failure is an [Error] raised with
    the world untouched. *)
Theorem presence_mismatch_fails :
  forall state r w,
    SigninResponse.state r = JStr (SigninState.id state) ->
    present (SigninResponse.error r) = false ->
    (present (SigninState.nonce state) = true
     /\ present (SigninResponse.id_token r) = false)
    \/ (present (SigninState.nonce state) = false
        /\ present (SigninResponse.id_token r) = true)
    \/ (present (SigninState.code_verifier state) = true
        /\ present (SigninResponse.code r) = false)
    \/ (present (SigninState.code_verifier state) = false
        /\ present (SigninResponse.code r) = true) ->
    exists message r',
      signin state (mkStore r w) = (Throw (Error message), mkStore r' w).
Proof.
  intros state r w Hs He H. apply strict_eq_JStr in Hs.
  assert (exists message r',
             _processSigninParams settings state (mkStore r w)
             = (Throw (Error message), mkStore r' w)) as (m & r' & E).
  { unfold _processSigninParams. st_unfold. rewrite Hs.
    destruct (present (SigninState.nonce state)) eqn:Hn,
      (present (SigninResponse.id_token r)) eqn:Hi,
      (present (SigninState.code_verifier state)) eqn:Hv,
      (present (SigninResponse.code r)) eqn:Hc;
      try (exfalso; intuition congruence);
      run_guards ltac:(rewrite ?He, ?Hn, ?Hi, ?Hv, ?Hc); eauto. }
  exists m, r'. unfold validateSigninResponse. now apply bind_throws.
Qed.

(** C10. Even when [response.state] equals [state.id], sign-in validation
    fails, before any network call, when [state.client_id] is absent, when
    [state.authority] is absent, when the configured authority differs from
    [state.authority], or when a configured client_id differs from
    [state.client_id]. *)
Theorem inconsistent_state_fails :
  forall state r w,
    SigninResponse.state r = JStr (SigninState.id state) ->
    present (SigninState.client_id state) = false
    \/ present (SigninState.authority state) = false
    \/ Settings.authority settings <> SigninState.authority state
    \/ (present (Settings.client_id settings) = true
        /\ Settings.client_id settings <> SigninState.client_id state) ->
    exists message,
      signin state (mkStore r w) = (Throw (Error message), mkStore r w)
      /\ In message
           ["No client_id on state"; "No authority on state";
            "authority mismatch on settings vs. signin state";
            "client_id mismatch on settings vs. signin state"].
Proof.
  intros state r w Hs H. apply strict_eq_JStr in Hs.
  assert (exists message,
             _processSigninParams settings state (mkStore r w)
             = (Throw (Error message), mkStore r w)
             /\ In message
                  ["No client_id on state"; "No authority on state";
                   "authority mismatch on settings vs. signin state";
                   "client_id mismatch on settings vs. signin state"])
    as (m & E & Hm).
  { unfold _processSigninParams. st_unfold. rewrite Hs.
    cbn -[strict_eq present of_opt truthy].
    destruct (present (SigninState.client_id state)) eqn:Hc;
      cbn -[strict_eq present of_opt truthy];
      [ | eexists; split; [reflexivity | simpl; tauto] ].
    destruct (present (SigninState.authority state)) eqn:Ha;
      cbn -[strict_eq present of_opt truthy];
      [ | eexists; split; [reflexivity | simpl; tauto] ].
    destruct (strict_eq (of_opt (Settings.authority settings))
                (of_opt (SigninState.authority state))) eqn:Hau;
      cbn -[strict_eq present of_opt truthy];
      [ | eexists; split; [reflexivity | simpl; tauto] ].
    apply strict_eq_of_opt in Hau.
    destruct (present (Settings.client_id settings)) eqn:Hsc;
      cbn -[strict_eq present of_opt truthy];
      [ | exfalso; intuition congruence ].
    destruct (strict_eq (of_opt (Settings.client_id settings))
                (of_opt (SigninState.client_id state))) eqn:Hcl;
      cbn -[strict_eq present of_opt truthy];
      [ | eexists; split; [reflexivity | simpl; tauto] ].
    apply strict_eq_of_opt in Hcl. exfalso. intuition congruence. }
  exists m. split; [ | exact Hm ].
  unfold validateSigninResponse. now apply bind_throws.
Qed.

End Pipeline.


(** ** Closed instances *)

Example sample_answer_is_rejected_for_sub :
  fst (Sample.validate Sample.state (mkStore Sample.answer Sample.world))
  = Throw (Error "sub from user info endpoint does not match sub in id_token").
Proof. vm_compute. reflexivity. Qed.


Lemma state_mismatch_witness :
  (SigninResponse.state Sample.forged <> JStr (SigninState.id Sample.state)
   /\ Sample.validate Sample.state (mkStore Sample.forged Sample.world)
      = (Throw (Error "State does not match"),
         mkStore Sample.forged Sample.world))
  /\ (SignoutResponse.state Sample.signout_forged
      <> JStr (State.id Sample.signout_state)
      /\ validateSignoutResponse Sample.signout_state Sample.signout_forged
         = (Throw (Error "State does not match"), Sample.signout_forged)).
Proof.
  assert (H1 : SigninResponse.state Sample.forged
               <> JStr (SigninState.id Sample.state))
    by (simpl; discriminate).
  assert (H2 : SignoutResponse.state Sample.signout_forged
               <> JStr (State.id Sample.signout_state))
    by (simpl; discriminate).
  split; (split; [assumption | ]).
  - exact (proj1 (state_mismatch_fails_before_any_network_call
                    Sample.settings Sample.getJson Sample.exchangeCode
                    Sample.getClaims Sample.parseJwt
                    Sample.validateJwtAttributes Sample.validateJwt
                    Sample.hashString Sample.hexToBase64Url Sample.Date_now
                    Sample.isOpenIdConnect)
             Sample.state Sample.forged Sample.world H1).
  - exact (proj2 (state_mismatch_fails_before_any_network_call
                    Sample.settings Sample.getJson Sample.exchangeCode
                    Sample.getClaims Sample.parseJwt
                    Sample.validateJwtAttributes Sample.validateJwt
                    Sample.hashString Sample.hexToBase64Url Sample.Date_now
                    Sample.isOpenIdConnect)
             Sample.signout_state Sample.signout_forged H2).
Defined.

(** C2, as stated, fails: a response whose state does not match is rejected
    with [response.state] still holding what the provider sent, not
    [state.data]; the same holds for sign-out. *)
Lemma data_not_copied_on_state_mismatch :
  (exists e s',
      Sample.validate Sample.state (mkStore Sample.forged Sample.world)
      = (Throw e, s')
      /\ SigninResponse.state (response s') <> SigninState.data Sample.state)
  /\ (exists e r',
         validateSignoutResponse Sample.signout_state Sample.signout_forged
         = (Throw e, r')
         /\ SignoutResponse.state r' <> State.data Sample.signout_state).
Proof.
  split; do 2 eexists; (split; [vm_compute; reflexivity | ]);
    simpl; discriminate.
Qed.

Lemma data_copied_witness :
  (correlated Sample.settings Sample.state Sample.denied = true
   /\ SigninResponse.state
        (response
           (snd (Sample.validate Sample.state
                   (mkStore Sample.denied Sample.world))))
      = SigninState.data Sample.state)
  /\ (SignoutResponse.state Sample.signout_denied
      = JStr (State.id Sample.signout_state)
      /\ SignoutResponse.state
           (snd (validateSignoutResponse Sample.signout_state
                   Sample.signout_denied))
         = State.data Sample.signout_state).
Proof.
  split; (split; [reflexivity | ]).
  - eapply (proj1 (data_copied_before_every_later_failure
                     Sample.settings Sample.getJson Sample.exchangeCode
                     Sample.getClaims Sample.parseJwt
                     Sample.validateJwtAttributes Sample.validateJwt
                     Sample.hashString Sample.hexToBase64Url Sample.Date_now
                     Sample.isOpenIdConnect)
              Sample.state Sample.denied Sample.world).
    + reflexivity.
    + vm_compute. reflexivity.
  - eapply (proj2 (data_copied_before_every_later_failure
                     Sample.settings Sample.getJson Sample.exchangeCode
                     Sample.getClaims Sample.parseJwt
                     Sample.validateJwtAttributes Sample.validateJwt
                     Sample.hashString Sample.hexToBase64Url Sample.Date_now
                     Sample.isOpenIdConnect)
              Sample.signout_state Sample.signout_denied).
    + reflexivity.
    + vm_compute. reflexivity.
Defined.

Lemma presence_mismatch_witness :
  present (SigninState.nonce Sample.state) = true
  /\ present (SigninResponse.id_token Sample.bare) = false
  /\ exists message r',
       Sample.validate Sample.state (mkStore Sample.bare Sample.world)
       = (Throw (Error message), mkStore r' Sample.world).
Proof.
  split; [reflexivity | split; [reflexivity | ] ].
  apply (presence_mismatch_fails
           Sample.settings Sample.getJson Sample.exchangeCode
           Sample.getClaims Sample.parseJwt
           Sample.validateJwtAttributes Sample.validateJwt
           Sample.hashString Sample.hexToBase64Url Sample.Date_now
           Sample.isOpenIdConnect Sample.state Sample.bare Sample.world).
  - reflexivity.
  - reflexivity.
  - left. split; reflexivity.
Defined.


Lemma inconsistent_state_witness :
  SigninResponse.state Sample.answer = JStr (SigninState.id Sample.anonymous)
  /\ present (SigninState.client_id Sample.anonymous) = false
  /\ exists message,
       Sample.validate Sample.anonymous (mkStore Sample.answer Sample.world)
       = (Throw (Error message), mkStore Sample.answer Sample.world)
       /\ In message
            ["No client_id on state"; "No authority on state";
             "authority mismatch on settings vs. signin state";
             "client_id mismatch on settings vs. signin state"].
Proof.
  split; [reflexivity | split; [reflexivity | ] ].
  apply (inconsistent_state_fails
           Sample.settings Sample.getJson Sample.exchangeCode
           Sample.getClaims Sample.parseJwt
           Sample.validateJwtAttributes Sample.validateJwt
           Sample.hashString Sample.hexToBase64Url Sample.Date_now
           Sample.isOpenIdConnect Sample.anonymous Sample.answer Sample.world).
  - reflexivity.
  - left. reflexivity.
Defined.

(** ** Signing-key resolution *)

Lemma filter_by_objects name value keys :
  Forall (fun key => is_object key = true) keys ->
  filter_by name value keys = Some (filter (has name value) keys).
Proof.
  induction 1 as [ | key keys Hk _ IH]; simpl; [reflexivity | ].
  destruct key; try discriminate. unfold has. simpl. rewrite IH.
  now destruct (strict_eq (get props name) value).
Qed.

Lemma filter_keeps_objects (f : JsValue -> bool) keys key :
  Forall (fun key => is_object key = true) keys ->
  In key (filter f keys) -> is_object key = true.
Proof.
  intros H Hin. apply filter_In in Hin. destruct Hin as [Hin _].
  rewrite Forall_forall in H. now apply H.
Qed.

Lemma nullish_or_object key d :
  is_object key = true -> nullish_or key d = key.
Proof. destruct key; simpl; congruence. Qed.

Section KeyResolution.

Variable settings : Settings.t.
Variable getJson : list Event -> JsValue -> Result JsValue.
Variable parseJwt : string -> option Jwt.t.
Variable validateJwt :
  string -> JsValue -> JsValue -> option string -> Z -> Result unit.

Local Abbreviation resolve := (_getSigningKeyForJwt settings getJson).
Local Abbreviation resolve_with_retry :=
  (_getSigningKeyForJwtWithSingleRetry settings getJson).

Lemma filterByAlg_candidates keys alg w :
  Forall (fun key => is_object key = true) keys ->
  _filterByAlg (JArr keys) (JStr alg) w = (Ok (candidates alg keys), w).
Proof.
  intro H. unfold _filterByAlg, candidates, family_kty.
  destruct (String.prefix "RS" alg);
    [ | destruct (String.prefix "PS" alg);
        [ | destruct (String.prefix "ES" alg) ] ];
    try reflexivity; now rewrite filter_by_objects.
Qed.

Lemma resolve_by_kid jwt keys w w1 kid :
  getSigningKeys settings getJson w = (Ok (JArr keys), w1) ->
  Forall (fun key => is_object key = true) keys ->
  prop (Jwt.header jwt) "kid" = Some kid ->
  truthy kid = true ->
  resolve jwt w
  = (Ok (nullish_or (first (filter (has "kid" kid) keys)) JNull), w1).
Proof.
  intros Hk Hobj Hkid Ht. unfold _getSigningKeyForJwt.
  rewrite (bind_returns _ _ _ _ _ Hk). st_unfold.
  rewrite Hkid. cbn -[strict_eq present of_opt truthy]. rewrite Ht.
  now rewrite filter_by_objects.
Qed.

Lemma resolve_by_family jwt keys w w1 kid alg :
  getSigningKeys settings getJson w = (Ok (JArr keys), w1) ->
  Forall (fun key => is_object key = true) keys ->
  prop (Jwt.header jwt) "kid" = Some kid ->
  truthy kid = false ->
  prop (Jwt.header jwt) "alg" = Some (JStr alg) ->
  resolve jwt w
  = (Ok (if (List.length (candidates alg keys) =? 1)%nat
         then first (candidates alg keys) else JNull), w1).
Proof.
  intros Hk Hobj Hkid Ht Halg. unfold _getSigningKeyForJwt.
  rewrite (bind_returns _ _ _ _ _ Hk).
  unfold bind, throw_if, throw, ret, defined.
  cbn -[truthy _filterByAlg]. rewrite Hkid.
  cbn -[truthy _filterByAlg]. rewrite Ht, Halg.
  cbn -[_filterByAlg].
  rewrite filterByAlg_candidates by assumption.
  now destruct (List.length (candidates alg keys) =? 1)%nat.
Qed.

Lemma retry_after_reset jwt w key w1 :
  resolve jwt w = (Ok key, w1) ->
  (truthy key = true -> resolve_with_retry jwt w = (Ok key, w1))
  /\ (truthy key = false ->
      resolve_with_retry jwt w = resolve jwt (set_signingKeys JNull w1)).
Proof.
  intro H. unfold _getSigningKeyForJwtWithSingleRetry.
  rewrite (bind_returns _ _ _ _ _ H).
  split; intros ->; reflexivity.
Qed.

Lemma unresolved_key_fails state id_token jwt r w payload_nonce issuer w1
      key w2 :
  present (SigninState.nonce state) = true ->
  parseJwt id_token = Some jwt ->
  truthy (Jwt.header jwt) = true ->
  truthy (Jwt.payload jwt) = true ->
  prop (Jwt.payload jwt) "nonce" = Some payload_nonce ->
  strict_eq (of_opt (SigninState.nonce state)) payload_nonce = true ->
  getIssuer settings getJson w = (Ok issuer, w1) ->
  resolve_with_retry jwt w1 = (Ok key, w2) ->
  truthy key = false ->
  _validateIdToken settings getJson parseJwt validateJwt state id_token
    (mkStore r w)
  = (Throw (Error "No key matching kid or alg found in signing keys"),
     mkStore r w2).
Proof.
  intros Hn Hp Hh Hpl Hpn Heq Hi Hk Ht. unfold _validateIdToken.
  rewrite Hp. unfold bind, throw_if, throw, ret, defined, in_world.
  cbn -[strict_eq present of_opt truthy getIssuer
          _getSigningKeyForJwtWithSingleRetry].
  rewrite Hn, Hh, Hpl.
  cbn -[strict_eq present of_opt truthy getIssuer
          _getSigningKeyForJwtWithSingleRetry].
  rewrite Hpn.
  cbn -[strict_eq present of_opt truthy getIssuer
          _getSigningKeyForJwtWithSingleRetry].
  rewrite Heq.
  cbn -[strict_eq present of_opt truthy getIssuer
          _getSigningKeyForJwtWithSingleRetry].
  rewrite Hi.
  cbn -[strict_eq present of_opt truthy getIssuer
          _getSigningKeyForJwtWithSingleRetry].
  rewrite Hk.
  cbn -[strict_eq present of_opt truthy getIssuer
          _getSigningKeyForJwtWithSingleRetry].
  now rewrite Ht.
Qed.

(** C4. Over a fetched key set (an array of JSON objects): a header [kid]
    selects the key that alone carries this [kid], and no key when none
    carries it; without a [kid] the keys are filtered by the key type of the
    algorithm family ([RS*] RSA, [PS*] PS, [ES*] EC, no candidates for
    another family) and a key is resolved only when exactly one is left.
    When the first resolution yields no key the key cache is reset and the
    resolution is run once more, its outcome being the outcome of the whole;
    when the outcome is still no key, id-token validation fails. *)
Theorem signing_key_resolution :
  (forall jwt keys w w1 kid,
      getSigningKeys settings getJson w = (Ok (JArr keys), w1) ->
      Forall (fun key => is_object key = true) keys ->
      prop (Jwt.header jwt) "kid" = Some kid ->
      (truthy kid = true ->
       (forall key,
           filter (has "kid" kid) keys = [key] ->
           resolve jwt w = (Ok key, w1))
       /\ (filter (has "kid" kid) keys = [] ->
           resolve jwt w = (Ok JNull, w1)))
      /\ (truthy kid = false ->
          forall alg,
            prop (Jwt.header jwt) "alg" = Some (JStr alg) ->
            _filterByAlg (JArr keys) (JStr alg) w1
            = (Ok (candidates alg keys), w1)
            /\ (forall key,
                   candidates alg keys = [key] ->
                   resolve jwt w = (Ok key, w1))
            /\ (List.length (candidates alg keys) <> 1%nat ->
                resolve jwt w = (Ok JNull, w1))))
  /\ (forall jwt w key w1,
         resolve jwt w = (Ok key, w1) ->
         (truthy key = true -> resolve_with_retry jwt w = (Ok key, w1))
         /\ (truthy key = false ->
             resolve_with_retry jwt w
             = resolve jwt (set_signingKeys JNull w1)))
  /\ (forall state id_token jwt r w payload_nonce issuer w1 key w2,
         present (SigninState.nonce state) = true ->
         parseJwt id_token = Some jwt ->
         truthy (Jwt.header jwt) = true ->
         truthy (Jwt.payload jwt) = true ->
         prop (Jwt.payload jwt) "nonce" = Some payload_nonce ->
         strict_eq (of_opt (SigninState.nonce state)) payload_nonce = true ->
         getIssuer settings getJson w = (Ok issuer, w1) ->
         resolve_with_retry jwt w1 = (Ok key, w2) ->
         truthy key = false ->
         _validateIdToken settings getJson parseJwt validateJwt state id_token
           (mkStore r w)
         = (Throw (Error "No key matching kid or alg found in signing keys"),
            mkStore r w2)).
Proof.
  split; [ | split ].
  - intros jwt keys w w1 kid Hk Hobj Hkid. split.
    + intro Ht. rewrite (resolve_by_kid _ _ _ _ _ Hk Hobj Hkid Ht).
      split.
      * intros key E. rewrite E. simpl first.
        rewrite nullish_or_object; [reflexivity | ].
        apply (filter_keeps_objects (has "kid" kid) keys); [assumption | ].
        rewrite E. now left.
      * intros ->. reflexivity.
    + intros Ht alg Halg.
      rewrite (resolve_by_family _ _ _ _ _ _ Hk Hobj Hkid Ht Halg).
      split; [now apply filterByAlg_candidates | split ].
      * intros key E. rewrite E. reflexivity.
      * intro Hlen. apply Nat.eqb_neq in Hlen. now rewrite Hlen.
  - apply retry_after_reset.
  - apply unresolved_key_fails.
Qed.

End KeyResolution.


Lemma signing_key_resolution_witness :
  _getSigningKeyForJwt Sample.settings Sample.getJson Sample.jwt Sample.world
  = (Ok Sample.k1, Sample.fetched)
  /\ _getSigningKeyForJwtWithSingleRetry Sample.settings Sample.getJson
       Sample.jwt Sample.stale
     = _getSigningKeyForJwt Sample.settings Sample.getJson Sample.jwt
         (set_signingKeys JNull Sample.stale)
  /\ _validateIdToken Sample.settings Sample.getJson Sample.parseJwt
       Sample.validateJwt Sample.state "unknown.payload.signature"
       (mkStore Sample.answer Sample.world)
     = (Throw (Error "No key matching kid or alg found in signing keys"),
        mkStore Sample.answer Sample.refetched).
Proof.
  destruct (signing_key_resolution Sample.settings Sample.getJson
              Sample.parseJwt Sample.validateJwt)
    as (Hresolve & Hretry & Hfail).
  assert (Hkeys : getSigningKeys Sample.settings Sample.getJson Sample.world
                  = (Ok (JArr [Sample.k1; Sample.k2]), Sample.fetched))
    by (vm_compute; reflexivity).
  assert (Hobj : Forall (fun key => is_object key = true)
                   [Sample.k1; Sample.k2])
    by (repeat constructor).
  assert (Hstale : _getSigningKeyForJwt Sample.settings Sample.getJson
                     Sample.jwt Sample.stale
                   = (Ok JNull, Sample.stale))
    by (vm_compute; reflexivity).
  assert (Hissuer : getIssuer Sample.settings Sample.getJson Sample.world
                    = (Ok (JStr "https://idp.example"),
                       mkWorld
                         (MetadataService.mk
                            (MetadataService._metadataUrl
                               (service Sample.fetched))
                            JNull
                            (MetadataService._metadata
                               (service Sample.fetched)))
                         [GetJson
                            (JStr "https://idp.example/.well-known/openid-configuration")]))
    by (vm_compute; reflexivity).
  split; [ | split ].
  - apply (proj1 (proj1 (Hresolve Sample.jwt [Sample.k1; Sample.k2]
                           Sample.world Sample.fetched (JStr "k1")
                           Hkeys Hobj eq_refl)
                    eq_refl)).
    reflexivity.
  - apply (proj2 (Hretry Sample.jwt Sample.stale JNull Sample.stale Hstale)).
    reflexivity.
  - apply (Hfail Sample.state "unknown.payload.signature" Sample.unknown_jwt
             Sample.answer Sample.world (JStr "n-1")
             (JStr "https://idp.example") _ JNull Sample.refetched
             eq_refl eq_refl eq_refl eq_refl eq_refl eq_refl Hissuer).
    + vm_compute. reflexivity.
    + reflexivity.
Defined.

(** After a rotation the stale cache yields no key, the reset forces one
    fetch of the discovery document and one of the key set, and the second
    resolution finds the key. *)
Example rotation_is_recovered_by_one_refetch :
  _getSigningKeyForJwtWithSingleRetry Sample.settings Sample.getJson
    Sample.jwt Sample.stale
  = (Ok Sample.k1, Sample.fetched).
Proof. vm_compute. reflexivity. Qed.

(** A key that is still unknown after the refetch is looked for twice and
    the key set is fetched twice, never more. *)
Example unknown_key_is_looked_up_twice :
  _getSigningKeyForJwtWithSingleRetry Sample.settings Sample.getJson
    Sample.unknown_jwt Sample.world
  = (Ok JNull, Sample.refetched).
Proof. vm_compute. reflexivity. Qed.


(** ** The access-token hash *)

Lemma length_5_substring alg :
  String.length alg = 5%nat -> String.substring 2 3 alg <> "".
Proof.
  destruct alg as [ | a [ | b [ | c [ | d [ | e rest]]]]]; discriminate.
Qed.

Lemma present_Some (s : string) : present (Some s) = true <-> s <> "".
Proof.
  unfold present. simpl. destruct (String.eqb_spec s ""); simpl; split;
    congruence.
Qed.

(** Evaluates the guards of [_validateAccessToken] and nothing below. *)
Ltac at_cbn :=
  cbn -[truthy strict_eq present nonempty parseInt toString length_of
          supported_bits num_toString String.substring String.append
          Nat.div].

Section AccessToken.

Variable parseJwt : string -> option Jwt.t.
Variable hashString : string -> string -> string.
Variable hexToBase64Url : string -> string.

Local Abbreviation check := (_validateAccessToken parseJwt hashString hexToBase64Url).

Lemma at_hash_check r w access_token at_hash id_token jwt hashAlg :
  truthy (SigninResponse.profile r) = true ->
  prop (SigninResponse.profile r) "at_hash" = Some at_hash ->
  truthy at_hash = true ->
  nonempty (SigninResponse.id_token r) = Some id_token ->
  parseJwt id_token = Some jwt ->
  truthy (Jwt.header jwt) = true ->
  prop (Jwt.header jwt) "alg" = Some hashAlg ->
  check access_token (mkStore r w)
  = match hashAlg with
    | JStr alg =>
        if negb (String.length alg =? 5)%nat
        then (Throw (Error ("Unsupported alg: " ++ alg)%string), mkStore r w)
        else
          match parseInt (String.substring 2 3 alg) with
          | Some hashBits =>
              if negb (supported_bits hashBits)
              then (Throw (Error ("Unsupported alg: " ++ alg)%string),
                    mkStore r w)
              else
                let hash :=
                  hashString access_token
                    ("sha" ++ num_toString hashBits)%string in
                if negb (present (Some hash))
                   || negb (strict_eq (JStr (hexToBase64Url (left_half hash)))
                              at_hash)
                then (Throw (Error "Failed to validate at_hash"), mkStore r w)
                else (Ok tt, mkStore r w)
          | None =>
              (Throw (Error ("Unsupported alg: " ++ alg)%string), mkStore r w)
          end
    | _ =>
        if negb (truthy hashAlg)
           || negb (strict_eq (length_of hashAlg) (JNum 5))
        then (Throw (Error ("Unsupported alg: " ++ toString hashAlg)%string),
              mkStore r w)
        else (Throw TypeError, mkStore r w)
    end.
Proof.
  intros Hp Ha Hat Hid Hj Hh Halg. unfold _validateAccessToken.
  unfold bind, gets, throw_if, throw, ret, defined.
  at_cbn. rewrite Hp, Ha. at_cbn. rewrite Hat, Hid, Hj. at_cbn.
  rewrite Hh, Halg. at_cbn.
  destruct hashAlg as [ | | b | n | alg | items | props | name];
    try (destruct (negb _ || negb _); reflexivity).
  assert (Hlen : negb (truthy (JStr alg))
                 || negb (strict_eq (length_of (JStr alg)) (JNum 5))
                 = negb (String.length alg =? 5)%nat).
  { simpl. destruct (Nat.eqb_spec (String.length alg) 5) as [E | E].
    - rewrite E. destruct alg; [discriminate | reflexivity].
    - destruct (Z.eqb_spec (Z.of_nat (String.length alg)) 5) as [E' | E'];
        [ lia | apply orb_true_r ]. }
  rewrite Hlen.
  destruct (Nat.eqb_spec (String.length alg) 5) as [E | E]; at_cbn;
    [ | reflexivity ].
  rewrite (proj2 (present_Some _) (length_5_substring _ E)). at_cbn.
  destruct (parseInt (String.substring 2 3 alg)) as [hashBits | ];
    [ | reflexivity ].
  destruct (supported_bits hashBits); at_cbn; [ | reflexivity ].
  unfold left_half.
  destruct (present (Some (hashString access_token
                             ("sha" ++ num_toString hashBits)%string)));
    at_cbn; [ | reflexivity ].
  now destruct (strict_eq _ at_hash).
Qed.

Lemma supported_bits_cases hashBits :
  supported_bits hashBits = true <->
  hashBits = 256%Z \/ hashBits = 384%Z \/ hashBits = 512%Z.
Proof. unfold supported_bits. lia. Qed.

(** C5. For a response with a profile whose [at_hash] is non-empty and an
    id_token whose header parses, given that the digest primitive never
    returns an empty string: the access token is accepted exactly when the
    header [alg] is a string of 5 characters, its last 3 characters parse to
    256, 384 or 512, and the base64url encoding of the left half of the
    digest of that width of the raw access token is the profile's [at_hash];
    in every other case the check throws. *)
Theorem at_hash_accepted_exactly_when :
  forall r w access_token at_hash id_token jwt hashAlg,
    truthy (SigninResponse.profile r) = true ->
    prop (SigninResponse.profile r) "at_hash" = Some at_hash ->
    truthy at_hash = true ->
    nonempty (SigninResponse.id_token r) = Some id_token ->
    parseJwt id_token = Some jwt ->
    truthy (Jwt.header jwt) = true ->
    prop (Jwt.header jwt) "alg" = Some hashAlg ->
    (forall digest, hashString access_token digest <> "") ->
    let accepted :=
      exists alg bits digest,
        hashAlg = JStr alg
        /\ String.length alg = 5%nat
        /\ parseInt (String.substring 2 3 alg) = Some bits
        /\ In (bits, digest)
             [(256%Z, "sha256"); (384%Z, "sha384"); (512%Z, "sha512")]
        /\ at_hash
           = JStr (hexToBase64Url
                     (left_half (hashString access_token digest))) in
    (check access_token (mkStore r w) = (Ok tt, mkStore r w) <-> accepted)
    /\ (failed (fst (check access_token (mkStore r w))) = true
        <-> ~ accepted).
Proof.
  intros r w access_token at_hash id_token jwt hashAlg
    Hp Ha Hat Hid Hj Hh Halg Hhash accepted.
  assert (Hrun : (check access_token (mkStore r w) = (Ok tt, mkStore r w)
                  /\ accepted)
                 \/ (failed (fst (check access_token (mkStore r w))) = true
                     /\ ~ accepted)).
  { rewrite (at_hash_check r w access_token at_hash id_token jwt hashAlg
               Hp Ha Hat Hid Hj Hh Halg).
    assert (Hshape : forall A : Prop,
               (forall alg, hashAlg = JStr alg -> False) ->
               (accepted -> A) -> ~ accepted).
    { intros A Hno _ (alg & _ & _ & E & _). now apply (Hno alg). }
    destruct hashAlg as [ | | b | n | alg | items | props | name];
      try (right; split;
           [ destruct (negb _ || negb _); reflexivity
           | apply (Hshape True); [ discriminate | trivial ] ]).
    clear Hshape.
    destruct (Nat.eqb_spec (String.length alg) 5) as [E | E]; cbn [negb].
    2:{ right. split; [reflexivity | ].
        intros (alg' & _ & _ & E1 & E2 & _). injection E1 as <-.
        contradiction. }
    destruct (parseInt (String.substring 2 3 alg)) as [hashBits | ] eqn:Ebits.
    2:{ right. split; [reflexivity | ].
        intros (alg' & bits & _ & E1 & _ & E3 & _). injection E1 as <-.
        congruence. }
    destruct (supported_bits hashBits) eqn:Esup; cbn [negb].
    2:{ right. split; [reflexivity | ].
        intros (alg' & bits & digest & E1 & _ & E3 & Hin & _).
        injection E1 as <-. rewrite Ebits in E3. injection E3 as <-.
        assert (supported_bits hashBits = true); [ | congruence ].
        apply supported_bits_cases. simpl in Hin.
        destruct Hin as [Hin | [Hin | [Hin | [] ] ] ];
          injection Hin as <- _; auto. }
    cbv zeta.
    rewrite (proj2 (present_Some _) (Hhash _)). cbn [negb orb].
    assert (Hname : In (hashBits, ("sha" ++ num_toString hashBits)%string)
                      [(256%Z, "sha256"); (384%Z, "sha384");
                       (512%Z, "sha512")]).
    { apply supported_bits_cases in Esup.
      destruct Esup as [-> | [-> | ->] ]; simpl; auto. }
    destruct (strict_eq
                (JStr (hexToBase64Url
                         (left_half
                            (hashString access_token
                               ("sha" ++ num_toString hashBits)%string))))
                at_hash) eqn:Eeq; cbn [negb].
    - left. split; [reflexivity | ].
      apply strict_eq_JStr in Eeq.
      exists alg, hashBits, ("sha" ++ num_toString hashBits)%string.
      auto.
    - right. split; [reflexivity | ].
      intros (alg' & bits & digest & E1 & _ & E3 & Hin & E5).
      injection E1 as <-. rewrite Ebits in E3. injection E3 as <-.
      assert (digest = ("sha" ++ num_toString hashBits)%string) as ->.
      { simpl in Hin, Hname.
        destruct Hin as [Hin | [Hin | [Hin | [] ] ] ];
          injection Hin as <- <-; reflexivity. }
      apply strict_eq_JStr_false in Eeq. congruence. }
  destruct Hrun as [(Hok & Hacc) | (Hfail & Hrej)].
  - split; split; intro; try assumption; try contradiction.
    rewrite Hok in *. discriminate.
  - split; split; intro H; try assumption; try contradiction.
    rewrite H in Hfail. discriminate.
Qed.

End AccessToken.


Lemma sample_digest_nonempty :
  forall digest, Sample.hashString "token" digest <> "".
Proof. intro digest. unfold Sample.hashString. simpl. discriminate. Qed.

Lemma at_hash_witness :
  _validateAccessToken Sample.parseJwt Sample.hashString
    Sample.hexToBase64Url "token" (mkStore Sample.validated Sample.world)
  = (Ok tt, mkStore Sample.validated Sample.world).
Proof.
  apply (proj1 (at_hash_accepted_exactly_when
                  Sample.parseJwt Sample.hashString Sample.hexToBase64Url
                  Sample.validated Sample.world "token" (JStr "left-b64u")
                  "header.payload.signature" Sample.jwt (JStr "RS256")
                  eq_refl eq_refl eq_refl eq_refl eq_refl eq_refl eq_refl
                  sample_digest_nonempty)).
  exists "RS256", 256%Z, "sha256".
  repeat split; simpl; auto.
Defined.

(** Another access token does not hash to the [at_hash] of the sample. *)
Example other_token_is_rejected :
  _validateAccessToken Sample.parseJwt Sample.hashString
    Sample.hexToBase64Url "tokem" (mkStore Sample.validated Sample.world)
  = (Throw (Error "Failed to validate at_hash"),
     mkStore Sample.validated Sample.world).
Proof. vm_compute. reflexivity. Qed.


(** ** User-info claims *)

Section UserInfo.

Variable settings : Settings.t.
Variable getJson : list Event -> JsValue -> Result JsValue.
Variable exchangeCode : Obj -> ST World TokenResponse.t.
Variable getClaims : string -> ST World JsValue.
Variable parseJwt : string -> option Jwt.t.
Variable validateJwtAttributes :
  string -> JsValue -> option string -> Z -> Z -> Result JsValue.
Variable validateJwt :
  string -> JsValue -> JsValue -> option string -> Z -> Result unit.
Variable hashString : string -> string -> string.
Variable hexToBase64Url : string -> string.
Variable Date_now : World -> Z.
Variable isOpenIdConnect : SigninResponse.t -> bool.

Local Abbreviation signin :=
  (validateSigninResponse settings getJson exchangeCode getClaims parseJwt
     validateJwtAttributes validateJwt hashString hexToBase64Url Date_now
     isOpenIdConnect).
Local Abbreviation tokens :=
  (_validateTokens settings getJson exchangeCode parseJwt
     validateJwtAttributes validateJwt hashString hexToBase64Url Date_now).
Local Abbreviation claims_stage :=
  (_processClaims settings getClaims isOpenIdConnect).

Lemma processSigninParams_ok state r w s :
  _processSigninParams settings state (mkStore r w) = (Ok tt, s) ->
  SigninResponse.state (response s) = SigninState.data state.
Proof.
  unfold _processSigninParams. st_unfold. run_guards idtac;
    intro E; inversion E; reflexivity.
Qed.

Lemma processClaims_sub_mismatch state s access_token claims w2
      claims_sub profile_sub :
  isOpenIdConnect (response s) = true ->
  SigninState.skipUserInfo state <> Some true ->
  Settings.loadUserInfo settings = true ->
  nonempty (SigninResponse.access_token (response s)) = Some access_token ->
  getClaims access_token (world s) = (Ok claims, w2) ->
  prop claims "sub" = Some claims_sub ->
  prop (_filterProtocolClaims settings (SigninResponse.profile (response s)))
    "sub" = Some profile_sub ->
  strict_eq claims_sub profile_sub = false ->
  claims_stage state s
  = (Throw (Error "sub from user info endpoint does not match sub in id_token"),
     mkStore
       (SigninResponse.set_profile
          (_filterProtocolClaims settings (SigninResponse.profile (response s)))
          (response s))
       w2).
Proof.
  intros Hoidc Hskip Hload Htok Hclaims Hcs Hps Hne.
  unfold _processClaims, bind, gets, update, modify, throw_if, throw, ret,
    defined, in_world.
  cbn -[strict_eq nonempty prop _filterProtocolClaims _mergeClaims].
  rewrite Hoidc.
  cbn -[strict_eq nonempty prop _filterProtocolClaims _mergeClaims].
  rewrite Htok, Hload.
  assert (Hs : match SigninState.skipUserInfo state with
               | Some true => true
               | _ => false
               end = false).
  { destruct (SigninState.skipUserInfo state) as [ [ | ] | ];
      congruence. }
  rewrite Hs.
  cbn -[strict_eq nonempty prop _filterProtocolClaims _mergeClaims].
  rewrite Hclaims.
  cbn -[strict_eq nonempty prop _filterProtocolClaims _mergeClaims].
  rewrite Hcs.
  cbn -[strict_eq nonempty prop _filterProtocolClaims _mergeClaims].
  rewrite Hps.
  cbn -[strict_eq nonempty prop _filterProtocolClaims _mergeClaims].
  now rewrite Hne.
Qed.

(** C6. When the first two stages have passed and user-info loading
    applies (the response is OpenID Connect, the state does not skip user
    info, [loadUserInfo] is set, an access token is present), a claim set
    whose [sub] differs from the [sub] of the id-token profile makes the
    validation throw the subject-mismatch error: nothing is returned, the
    profile on the response is the filtered id-token profile and not a
    merged one, and [response.state] holds [state.data]. *)
Theorem userinfo_subject_mismatch_fails :
  forall state r w s0 s1 access_token claims w2 claims_sub profile_sub,
    _processSigninParams settings state (mkStore r w) = (Ok tt, s0) ->
    tokens state s0 = (Ok tt, s1) ->
    isOpenIdConnect (response s1) = true ->
    SigninState.skipUserInfo state <> Some true ->
    Settings.loadUserInfo settings = true ->
    nonempty (SigninResponse.access_token (response s1)) = Some access_token ->
    getClaims access_token (world s1) = (Ok claims, w2) ->
    prop claims "sub" = Some claims_sub ->
    prop (_filterProtocolClaims settings
            (SigninResponse.profile (response s1))) "sub"
    = Some profile_sub ->
    strict_eq claims_sub profile_sub = false ->
    exists s2,
      signin state (mkStore r w)
      = (Throw
           (Error "sub from user info endpoint does not match sub in id_token"),
         s2)
      /\ SigninResponse.state (response s2) = SigninState.data state
      /\ SigninResponse.profile (response s2)
         = _filterProtocolClaims settings
             (SigninResponse.profile (response s1))
      /\ world s2 = w2.
Proof.
  intros state r w s0 s1 access_token claims w2 claims_sub profile_sub
    Hparams Htokens Hoidc Hskip Hload Htok Hclaims Hcs Hps Hne.
  pose proof (processClaims_sub_mismatch state s1 access_token claims w2
                claims_sub profile_sub Hoidc Hskip Hload Htok Hclaims Hcs
                Hps Hne) as Hstage.
  eexists. split; [ | split; [ | split ] ].
  - unfold validateSigninResponse.
    rewrite (bind_returns _ _ _ _ _ Hparams).
    rewrite (bind_returns _ _ _ _ _ Htokens).
    apply bind_throws. exact Hstage.
  - simpl. apply processSigninParams_ok in Hparams.
    apply keeps_validateTokens in Htokens. congruence.
  - reflexivity.
  - reflexivity.
Qed.

End UserInfo.

Lemma userinfo_subject_mismatch_witness :
  exists s2,
    Sample.validate Sample.state (mkStore Sample.answer Sample.world)
    = (Throw
         (Error "sub from user info endpoint does not match sub in id_token"),
       s2)
    /\ SigninResponse.state (response s2) = SigninState.data Sample.state
    /\ SigninResponse.profile (response s2)
       = JObj [("sub", JStr "abc")]
    /\ world s2 = Sample.fetched.
Proof.
  destruct (userinfo_subject_mismatch_fails
              Sample.settings Sample.getJson Sample.exchangeCode
              Sample.getClaims Sample.parseJwt
              Sample.validateJwtAttributes Sample.validateJwt
              Sample.hashString Sample.hexToBase64Url Sample.Date_now
              Sample.isOpenIdConnect Sample.state Sample.answer Sample.world
              (mkStore
                 (SigninResponse.set_scope (Some "openid")
                    (SigninResponse.set_state (JStr "app-data")
                       Sample.answer))
                 Sample.world)
              (mkStore
                 (SigninResponse.set_profile (Jwt.payload Sample.jwt)
                    (SigninResponse.set_scope (Some "openid")
                       (SigninResponse.set_state (JStr "app-data")
                          Sample.answer)))
                 Sample.fetched)
              "token"
              (JObj [("sub", JStr "xyz"); ("name", JStr "Alice")])
              Sample.fetched (JStr "xyz") (JStr "abc"))
    as (s2 & H1 & H2 & H3 & H4);
    try (vm_compute; reflexivity).
  - discriminate.
  - exists s2. repeat split; assumption.
Defined.


(** ** Merging claims *)

Lemma lookup_set_same o k v : lookup (set o k v) k = Some v.
Proof.
  induction o as [ | [k' v'] o IH]; simpl.
  - now rewrite String.eqb_refl.
  - destruct (String.eqb_spec k' k) as [-> | E]; simpl.
    + now rewrite String.eqb_refl.
    + destruct (String.eqb_spec k' k); [contradiction | exact IH].
Qed.

Lemma lookup_set_other o k v k' :
  k <> k' -> lookup (set o k v) k' = lookup o k'.
Proof.
  intro Hne. induction o as [ | [k0 v0] o IH]; simpl.
  - destruct (String.eqb_spec k k'); [contradiction | reflexivity].
  - destruct (String.eqb_spec k0 k) as [-> | E]; simpl.
    + destruct (String.eqb_spec k k'); [contradiction | reflexivity].
    + now rewrite IH.
Qed.

Lemma get_set_same o k v : get (set o k v) k = v.
Proof. unfold get. now rewrite lookup_set_same. Qed.

Lemma get_set_other o k v k' : k <> k' -> get (set o k v) k' = get o k'.
Proof. intro H. unfold get. now rewrite lookup_set_other. Qed.

Lemma lookup_None_not_In (o : Obj) k :
  ~ In k (map fst o) -> lookup o k = None.
Proof.
  induction o as [ | [k' v'] o IH]; simpl; [reflexivity | ].
  intro H. destruct (String.eqb_spec k' k) as [-> | E]; [tauto | ].
  apply IH. tauto.
Qed.

(** Copying a well-formed object yields its properties. *)
Lemma lookup_assign (o target : Obj) k :
  NoDup (map fst o) ->
  lookup (assign target (JObj o)) k
  = match lookup o k with
    | Some v => Some v
    | None => lookup target k
    end.
Proof.
  unfold assign. simpl own_entries.
  revert target. induction o as [ | [k' v'] o IH]; intros target Hnd;
    simpl; [reflexivity | ].
  inversion Hnd as [ | ? ? Hnotin Hnd']; subst.
  rewrite IH by assumption.
  destruct (String.eqb_spec k' k) as [-> | E].
  - rewrite (lookup_None_not_In o k Hnotin). apply lookup_set_same.
  - destruct (lookup o k); [reflexivity | now apply lookup_set_other].
Qed.

Lemma get_merge_value_same deep recur name value result :
  get (merge_value deep recur name value result) name
  = merged deep recur (get result name) value.
Proof.
  unfold merge_value, merged.
  destruct (negb (truthy (get result name))); [apply get_set_same | ].
  destruct (get result name) eqn:E;
    repeat match goal with
           | |- context [if ?b then _ else _] => destruct b
           end;
    rewrite ?get_set_same; auto.
Qed.

Lemma get_merge_value_other deep recur name value result name' :
  name <> name' ->
  get (merge_value deep recur name value result) name' = get result name'.
Proof.
  intro Hne. unfold merge_value.
  destruct (negb (truthy (get result name)));
    [now apply get_set_other | ].
  destruct (get result name);
    repeat match goal with
           | |- context [if ?b then _ else _] => destruct b
           end;
    rewrite ?get_set_other by assumption; reflexivity.
Qed.

Section MergeClaims.

Variable settings : Settings.t.

Local Abbreviation merge_name := (merge_name settings).

Lemma mergeClaims_object claims1 props :
  _mergeClaims settings claims1 (JObj props)
  = JObj (fold_left (fun result kv => merge_name (fst kv) (snd kv) result)
            props (assign [] claims1)).
Proof. reflexivity. Qed.

Lemma get_merge_name_other name values result name' :
  name <> name' -> get (merge_name name values result) name' = get result name'.
Proof.
  intro Hne. unfold merge_name.
  destruct values; try now apply get_merge_value_other.
  revert result. induction items as [ | value items IH]; intro result;
    cbn [fold_left]; [reflexivity | ].
  rewrite IH. now apply get_merge_value_other.
Qed.

(** The loop over one name reads nothing but [result[name]]. *)
Lemma get_merge_name_same name values result1 result2 :
  get result1 name = get result2 name ->
  get (merge_name name values result1) name
  = get (merge_name name values result2) name.
Proof.
  intro H. unfold merge_name.
  destruct values; try (rewrite !get_merge_value_same; now rewrite H).
  revert result1 result2 H.
  induction items as [ | value items IH]; intros result1 result2 H;
    cbn [fold_left]; [exact H | ].
  apply IH. rewrite !get_merge_value_same. now rewrite H.
Qed.

(** Only the values [claims2] holds under a name reach that name. *)
Lemma get_merge_names props name result :
  NoDup (map fst props) ->
  get (fold_left (fun result kv => merge_name (fst kv) (snd kv) result)
         props result) name
  = match lookup props name with
    | Some values => get (merge_name name values result) name
    | None => get result name
    end.
Proof.
  revert result. induction props as [ | [k values] props IH];
    intros result Hnd; simpl; [reflexivity | ].
  inversion Hnd as [ | ? ? Hnotin Hnd']; subst.
  rewrite IH by assumption.
  destruct (String.eqb_spec k name) as [-> | E].
  - now rewrite (lookup_None_not_In props name Hnotin).
  - destruct (lookup props name) as [values' | ] eqn:El.
    + apply get_merge_name_same. now apply get_merge_name_other.
    + now apply get_merge_name_other.
Qed.

Lemma strict_eq_scalar a b :
  scalar b = true -> (strict_eq a b = true <-> a = b).
Proof.
  destruct b; try discriminate; intros _; destruct a; simpl; split;
    try discriminate; intro H.
  - apply Bool.eqb_prop in H. now subst.
  - injection H as ->. apply Bool.eqb_reflx.
  - apply Z.eqb_eq in H. now subst.
  - injection H as ->. apply Z.eqb_refl.
  - apply String.eqb_eq in H. now subst.
  - injection H as ->. apply String.eqb_refl.
Qed.

Lemma index_of_scalar items value :
  scalar value = true -> In value items ->
  index_of_negative items value = false.
Proof.
  intros Hs Hin. unfold index_of_negative. apply negb_false_iff.
  apply existsb_exists. exists value. split; [assumption | ].
  now apply strict_eq_scalar.
Qed.

(** The value a single, non-array value of [claims2] leaves under its
    name. *)
Lemma get_mergeClaims c1 c2 name value :
  NoDup (map fst c1) ->
  NoDup (map fst c2) ->
  lookup c2 name = Some value ->
  isArray value = false ->
  exists result,
    _mergeClaims settings (JObj c1) (JObj c2) = JObj result
    /\ get result name
       = merged (Settings.mergeClaims settings)
           (fun current => _mergeClaims settings current value)
           (get c1 name) value.
Proof.
  intros Hnd1 Hnd2 Hl Harr. rewrite mergeClaims_object.
  eexists. split; [reflexivity | ].
  rewrite get_merge_names by assumption. rewrite Hl.
  assert (Hget : get (assign [] (JObj c1)) name = get c1 name).
  { unfold get. rewrite lookup_assign by assumption.
    now destruct (lookup c1 name). }
  unfold merge_name.
  destruct value; try discriminate;
    rewrite get_merge_value_same; now rewrite Hget.
Qed.


End MergeClaims.

(** The example of the specification. *)
Example merge_of_two_scalars :
  _mergeClaims Sample.settings (JObj [("a", JStr "1")])
    (JObj [("a", JStr "2")])
  = JObj [("a", JArr [JStr "1"; JStr "2"])].
Proof. reflexivity. Qed.




(** ** Folding a code exchange into the response *)

Lemma opt_or_wins server prior :
  first_nonempty_wins server prior (opt_or server prior).
Proof. unfold first_nonempty_wins, opt_or. split; intros ->; reflexivity. Qed.

Lemma parsed_or_wins server prior :
  parsed_wins server prior (parsed_or server prior).
Proof.
  unfold parsed_wins, parsed_or. split.
  - intros n -> Hn. destruct (Z.eqb_spec n 0); [contradiction | reflexivity].
  - intros [-> | ->]; reflexivity.
Qed.

Section CodeExchange.

Variable settings : Settings.t.
Variable getJson : list Event -> JsValue -> Result JsValue.
Variable exchangeCode : Obj -> ST World TokenResponse.t.
Variable validateJwtAttributes :
  string -> JsValue -> option string -> Z -> Z -> Result JsValue.
Variable Date_now : World -> Z.

Local Abbreviation processCode :=
  (_processCode settings getJson exchangeCode validateJwtAttributes Date_now).

(** What [_processCode] leaves in the exchanged fields, whether the
    attribute validation that follows the fold passes or throws. *)
Lemma processCode_folds state s t w1 res s' :
  exchangeCode (token_request state (response s)) (world s) = (Ok t, w1) ->
  processCode state s = (res, s') ->
  exchanged (response s')
  = (opt_or (TokenResponse.error t) (SigninResponse.error (response s)),
     opt_or (TokenResponse.error_description t)
       (SigninResponse.error_description (response s)),
     opt_or (TokenResponse.error_uri t)
       (SigninResponse.error_uri (response s)),
     opt_or (TokenResponse.id_token t) (SigninResponse.id_token (response s)),
     opt_or (TokenResponse.session_state t)
       (SigninResponse.session_state (response s)),
     opt_or (TokenResponse.access_token t)
       (SigninResponse.access_token (response s)),
     opt_or (TokenResponse.token_type t)
       (SigninResponse.token_type (response s)),
     opt_or (TokenResponse.scope t) (SigninResponse.scope (response s)),
     parsed_or (TokenResponse.expires_in t)
       (SigninResponse.expires_in (response s))).
Proof.
  intros Hex Hrun. unfold token_request in Hex.
  unfold _processCode, bind, gets, in_world, update, modify in Hrun.
  cbn -[assign truthy typeof_object of_opt or_else opt_or parsed_or nonempty
          _validateIdTokenAttributes] in Hrun.
  rewrite Hex in Hrun.
  cbn -[assign truthy typeof_object of_opt or_else opt_or parsed_or nonempty
          _validateIdTokenAttributes] in Hrun.
  match type of Hrun with
  | match ?o with _ => _ end ?s1 = _ =>
      destruct o as [id_token | ]
  end.
  - apply validateIdTokenAttributes_keeps_exchanged in Hrun. exact Hrun.
  - inversion Hrun. reflexivity.
Qed.


End CodeExchange.




(** ** The metadata cache *)

Section MetadataCache.

Variable settings : Settings.t.
Variable getJson : list Event -> JsValue -> Result JsValue.

Local Abbreviation get_metadata := (getMetadata settings getJson).
Local Abbreviation get_keys := (getSigningKeys settings getJson).

Lemma getMetadata_cached w metadata :
  MetadataService._metadata (service w) = Some metadata ->
  get_metadata w = (Ok metadata, w).
Proof.
  intro H. unfold getMetadata, bind, gets. cbn. now rewrite H.
Qed.

Lemma getMetadata_unconfigured w :
  MetadataService._metadata (service w) = None ->
  present (MetadataService._metadataUrl (service w)) = false ->
  get_metadata w
  = (Throw (Error "No authority or metadataUrl configured on settings"), w).
Proof.
  intros Hm Hu. unfold getMetadata, bind, gets, throw_if, throw.
  cbn -[present]. rewrite Hm. cbn -[present]. now rewrite Hu.
Qed.

Lemma getMetadata_fetches w url json :
  MetadataService._metadata (service w) = None ->
  MetadataService._metadataUrl (service w) = Some url ->
  url <> "" ->
  getJson (log w) (JStr url) = Ok json ->
  let seed :=
    match Settings.metadataSeed settings with
    | Some seed => seed
    | None => []
    end in
  let merged := assign (assign [] (JObj seed)) json in
  get_metadata w
  = (Ok merged,
     set_metadata (Some merged)
       (mkWorld (service w) (log w ++ [GetJson (JStr url)]))).
Proof.
  intros Hm Hu Hne Hj seed merged.
  unfold getMetadata, bind, gets, throw_if, throw, ret, modify,
    fetchJson.
  cbn -[present assign]. rewrite Hm. cbn -[present assign]. rewrite Hu.
  rewrite (proj2 (present_Some url) Hne).
  cbn -[present assign]. rewrite Hj. reflexivity.
Qed.

Lemma getMetadata_fetch_fails w url e :
  MetadataService._metadata (service w) = None ->
  MetadataService._metadataUrl (service w) = Some url ->
  url <> "" ->
  getJson (log w) (JStr url) = Throw e ->
  get_metadata w
  = (Throw e, mkWorld (service w) (log w ++ [GetJson (JStr url)])).
Proof.
  intros Hm Hu Hne Hj.
  unfold getMetadata, bind, gets, throw_if, throw, ret, modify, fetchJson.
  cbn -[present assign]. rewrite Hm. cbn -[present assign]. rewrite Hu.
  rewrite (proj2 (present_Some url) Hne).
  cbn -[present assign]. now rewrite Hj.
Qed.

(** A successful call leaves the document in the cache. *)
Lemma getMetadata_populates w metadata w' :
  get_metadata w = (Ok metadata, w') ->
  MetadataService._metadata (service w') = Some metadata.
Proof.
  unfold getMetadata, bind, gets, throw_if, throw, ret, modify,
    fetchJson.
  cbn -[present assign].
  destruct (MetadataService._metadata (service w)) as [m | ] eqn:Hm.
  - intro E. inversion E. subst. exact Hm.
  - cbn -[present assign].
    destruct (present (MetadataService._metadataUrl (service w)));
      cbn -[present assign]; [ | discriminate ].
    destruct (getJson _ _); cbn -[present assign]; [ | discriminate ].
    intro E. inversion E. reflexivity.
Qed.

(** With a cached document, reading a property leaves the world alone. *)
Lemma getMetadataProperty_cached w metadata name optional :
  MetadataService._metadata (service w) = Some metadata ->
  exists r, _getMetadataProperty settings getJson name optional w = (r, w).
Proof.
  intro Hm. unfold _getMetadataProperty.
  rewrite (bind_returns _ _ _ _ _ (getMetadata_cached w metadata Hm)).
  destruct (strict_eq (get metadata name) JUndefined);
    [ destruct optional | ]; eexists; reflexivity.
Qed.

(** Fetching the signing keys leaves a cached document where it is. *)
Lemma getSigningKeys_keeps_metadata w metadata r w' :
  MetadataService._metadata (service w) = Some metadata ->
  get_keys w = (r, w') ->
  MetadataService._metadata (service w') = Some metadata.
Proof.
  intros Hm E. unfold getSigningKeys in E.
  apply bind_inv in E. destruct E as [(e & E & _) | (cached & s1 & E1 & E)];
    [ discriminate | ].
  inversion E1; subst s1 cached; clear E1.
  destruct (truthy (MetadataService._signingKeys (service w)));
    [ inversion E; subst; exact Hm | ].
  destruct (getMetadataProperty_cached w metadata "jwks_uri" false Hm)
    as (r0 & Hp).
  unfold getKeysEndpoint in E. apply bind_inv in E.
  destruct E as [(e & E & _) | (jwks_uri & s1 & E1 & E)];
    [ rewrite Hp in E; inversion E; subst; exact Hm | ].
  rewrite Hp in E1. inversion E1; subst s1 r0; clear E1.
  apply bind_inv in E.
  destruct E as [(e & E & _) | (keySet & s1 & E1 & E)];
    [ unfold fetchJson in E; inversion E; exact Hm | ].
  unfold fetchJson in E1. inversion E1 as [ [Hj Hs1] ]; clear E1.
  assert (Hm1 : MetadataService._metadata (service s1) = Some metadata)
    by (subst s1; exact Hm).
  clear Hs1 Hj Hp. revert E.
  unfold bind, throw_if, throw, ret, defined, modify.
  destruct (prop keySet "keys") as [keys | ]; cbn -[truthy];
    [ | intro E; inversion E; subst; exact Hm1 ].
  destruct (truthy keys); cbn;
    intro E; inversion E; subst; simpl; exact Hm1.
Qed.

(** Fetched values win over the seed, name by name. *)
Lemma seed_merge_precedence seed fetched name :
  NoDup (map fst seed) ->
  NoDup (map fst fetched) ->
  get (assign (assign [] (JObj seed)) (JObj fetched)) name
  = match lookup fetched name with
    | Some v => v
    | None => get seed name
    end.
Proof.
  intros Hs Hf. unfold get. rewrite !lookup_assign by assumption.
  destruct (lookup fetched name); [reflexivity | ].
  now destruct (lookup seed name).
Qed.


End MetadataCache.

(** The discovery URL is derived from the authority. *)
Example metadata_url_of_authority :
  MetadataService._metadataUrl (constructor Sample.settings)
  = Some "https://idp.example/.well-known/openid-configuration"
  /\ MetadataService._metadataUrl (constructor Sample.seeded)
     = Some "https://idp.example/.well-known/openid-configuration".
Proof. split; reflexivity. Qed.





(** * Further properties of the code *)

(** ** Construction of the metadata service *)

Lemma append_assoc (a b c : string) :
  ((a ++ b) ++ c = a ++ (b ++ c))%string.
Proof. induction a as [ | x a IH]; simpl; [reflexivity | now rewrite IH]. Qed.

Lemma trailing_slash_split s :
  lacks_trailing_slash s = false -> exists base, s = (base ++ "/")%string.
Proof.
  unfold lacks_trailing_slash.
  induction s as [ | c rest IH]; simpl; [discriminate | ].
  rewrite Nat.sub_0_r. destruct rest as [ | c' rest'].
  - simpl. destruct (Ascii.eqb_spec c "/"); [ | discriminate ].
    intros _. exists "". now subst.
  - simpl String.length. cbn [String.get].
    simpl in IH. rewrite Nat.sub_0_r in IH.
    intro H. destruct (IH H) as (base & E).
    exists (String c base). simpl. now rewrite E.
Qed.

Lemma no_trailing_slash s base :
  lacks_trailing_slash s = true -> s <> (base ++ "/")%string.
Proof.
  unfold lacks_trailing_slash. intros H ->. revert H.
  induction base as [ | c base IH]; simpl; [discriminate | ].
  rewrite Nat.sub_0_r.
  destruct (base ++ "/")%string as [ | c' rest] eqn:E.
  - destruct base; discriminate.
  - simpl String.length. cbn [String.get].
    simpl in IH. now rewrite Nat.sub_0_r in IH.
Qed.

(** X1. The discovery URL: a configured [metadataUrl] is taken as it is;
    without one, the URL is the authority, one ["/"] (added only when the
    authority does not already end with one) and the well-known path;
    without either there is no URL. *)
Theorem constructor_resolves_metadata_url :
  forall settings,
    (forall url,
        Settings.metadataUrl settings = Some url -> url <> "" ->
        MetadataService._metadataUrl (constructor settings) = Some url)
    /\ (forall authority,
           present (Settings.metadataUrl settings) = false ->
           Settings.authority settings = Some authority ->
           authority <> "" ->
           exists base,
             MetadataService._metadataUrl (constructor settings)
             = Some (base ++ "/" ++ OidcMetadataUrlPath)%string
             /\ ((authority = base
                  /\ forall b, authority <> (b ++ "/")%string)
                 \/ authority = (base ++ "/")%string))
    /\ (present (Settings.metadataUrl settings) = false ->
        present (Settings.authority settings) = false ->
        MetadataService._metadataUrl (constructor settings) = None).
Proof.
  intro settings. split; [ | split ].
  - intros url Hu Hne. unfold constructor. cbn [MetadataService._metadataUrl].
    rewrite Hu. now rewrite (proj2 (present_Some url) Hne).
  - intros authority Hm Ha Hne. unfold constructor.
    cbn [MetadataService._metadataUrl]. rewrite Hm, Ha.
    rewrite (proj2 (present_Some authority) Hne).
    destruct (lacks_trailing_slash authority) eqn:Hs.
    + exists authority. split.
      * now rewrite append_assoc.
      * left. split; [reflexivity | ].
        intro b. now apply no_trailing_slash.
    + destruct (trailing_slash_split authority Hs) as (base & ->).
      exists base. split.
      * now rewrite append_assoc.
      * now right.
  - intros Hm Ha. unfold constructor. cbn [MetadataService._metadataUrl].
    rewrite Hm. destruct (Settings.authority settings) as [a | ];
      [ now rewrite Ha | reflexivity ].
Qed.

Lemma constructor_resolves_metadata_url_witness :
  (exists base,
      MetadataService._metadataUrl (constructor Sample.seeded)
      = Some (base ++ "/" ++ OidcMetadataUrlPath)%string
      /\ (("https://idp.example/" = base
           /\ forall b, "https://idp.example/" <> (b ++ "/")%string)
          \/ "https://idp.example/" = (base ++ "/")%string))
  /\ MetadataService._metadataUrl (constructor Sample.unconfigured) = None.
Proof.
  split.
  - apply (proj1 (proj2 (constructor_resolves_metadata_url Sample.seeded))
             "https://idp.example/" eq_refl eq_refl).
    discriminate.
  - apply (proj2 (proj2 (constructor_resolves_metadata_url
                           Sample.unconfigured)));
      reflexivity.
Defined.


(** ** Accessors and the signing-key cache *)

Section MetadataReads.

Variable settings : Settings.t.
Variable getJson : list Event -> JsValue -> Result JsValue.

Local Abbreviation get_metadata := (getMetadata settings getJson).
Local Abbreviation get_keys := (getSigningKeys settings getJson).
Local Abbreviation get_property := (_getMetadataProperty settings getJson).

Lemma getMetadataProperty_read name optional w :
  get_property name optional w = read name optional (get_metadata w).
Proof.
  unfold _getMetadataProperty, bind, read.
  destruct (get_metadata w) as [[metadata | e] w']; [ | reflexivity ].
  destruct (strict_eq (get metadata name) JUndefined);
    [ destruct optional | ]; reflexivity.
Qed.


Lemma getMetadata_keeps_keys w r w' :
  get_metadata w = (r, w') ->
  MetadataService._signingKeys (service w')
  = MetadataService._signingKeys (service w).
Proof.
  unfold getMetadata, bind, gets, throw_if, throw, ret, modify, fetchJson.
  cbn -[present assign].
  destruct (MetadataService._metadata (service w)); cbn -[present assign];
    [ intro E; now inversion E | ].
  destruct (present (MetadataService._metadataUrl (service w)));
    cbn -[present assign]; [ | intro E; now inversion E ].
  destruct (getJson _ _); cbn -[present assign]; intro E; now inversion E.
Qed.

Lemma getSigningKeys_cached w :
  truthy (MetadataService._signingKeys (service w)) = true ->
  get_keys w = (Ok (MetadataService._signingKeys (service w)), w).
Proof.
  intro H. unfold getSigningKeys, bind, gets. cbn -[truthy]. now rewrite H.
Qed.

(** The keys a successful call returns are truthy and cached. *)
Lemma getSigningKeys_populates w keys w' :
  get_keys w = (Ok keys, w') ->
  truthy keys = true /\ MetadataService._signingKeys (service w') = keys.
Proof.
  unfold getSigningKeys. intro E. apply bind_inv in E.
  destruct E as [(e & _ & E) | (cached & s1 & E1 & E)]; [discriminate | ].
  inversion E1; subst s1 cached; clear E1.
  destruct (truthy (MetadataService._signingKeys (service w))) eqn:Ht.
  - inversion E; subst. now split.
  - apply bind_inv in E.
    destruct E as [(e & _ & E) | (jwks_uri & s1 & _ & E)]; [discriminate | ].
    apply bind_inv in E.
    destruct E as [(e & _ & E) | (keySet & s2 & _ & E)]; [discriminate | ].
    revert E. unfold bind, throw_if, throw, ret, defined, modify.
    destruct (prop keySet "keys") as [found | ]; cbn -[truthy];
      [ | discriminate ].
    destruct (truthy found) eqn:Hf; cbn; intro E; inversion E; subst.
    now split.
Qed.

(** X3. Signing keys are fetched at most once between resets: the keys a
    successful [getSigningKeys] returns are truthy and cached, and every
    later call, also after a call of [getMetadata], returns the same keys
    and sends no request. *)
Theorem signing_keys_are_fetched_once :
  forall w keys w',
    get_keys w = (Ok keys, w') ->
    truthy keys = true
    /\ get_keys w' = (Ok keys, w')
    /\ (forall r w'',
           get_metadata w' = (r, w'') -> get_keys w'' = (Ok keys, w'')).
Proof.
  intros w keys w' H.
  destruct (getSigningKeys_populates w keys w' H) as (Ht & Hk).
  split; [exact Ht | split ].
  - rewrite <- Hk. apply getSigningKeys_cached. now rewrite Hk.
  - intros r w'' Hm. apply getMetadata_keeps_keys in Hm.
    rewrite <- Hk, <- Hm. apply getSigningKeys_cached.
    now rewrite Hm, Hk.
Qed.

(** With the document cached and no keys cached, the outcome is decided by
    the one request to [jwks_uri]. *)
Lemma getSigningKeys_uncached w metadata :
  truthy (MetadataService._signingKeys (service w)) = false ->
  MetadataService._metadata (service w) = Some metadata ->
  strict_eq (get metadata "jwks_uri") JUndefined = false ->
  let jwks_uri := get metadata "jwks_uri" in
  let requested := mkWorld (service w) (log w ++ [GetJson jwks_uri]) in
  get_keys w
  = match getJson (log w) jwks_uri with
    | Ok keySet =>
        match prop keySet "keys" with
        | Some keys =>
            if truthy keys then (Ok keys, set_signingKeys keys requested)
            else (Throw (Error "Missing keys on keyset"), requested)
        | None => (Throw TypeError, requested)
        end
    | Throw e => (Throw e, requested)
    end.
Proof.
  intros Ht Hm Hu jwks_uri requested.
  unfold getSigningKeys, getKeysEndpoint.
  unfold bind at 1. unfold gets at 1. rewrite Ht.
  unfold bind at 1. rewrite getMetadataProperty_read.
  rewrite (getMetadata_cached settings getJson w metadata Hm).
  unfold read. rewrite Hu.
  unfold bind, fetchJson, throw_if, throw, ret, defined, modify.
  fold jwks_uri. destruct (getJson (log w) jwks_uri) as [keySet | e];
    [ | reflexivity ].
  destruct (prop keySet "keys") as [keys | ]; cbn -[truthy];
    [ | reflexivity ].
  destruct (truthy keys); reflexivity.
Qed.

(** X4. How fetching the keys fails, with the document cached and no keys
    cached: without a [jwks_uri] the error names the property and no request
    is sent; a key set without (truthy) [keys] is refused after the one
    request and nothing is cached; a failure of the fetcher is passed on. *)
Theorem signing_keys_failures :
  forall w metadata,
    truthy (MetadataService._signingKeys (service w)) = false ->
    MetadataService._metadata (service w) = Some metadata ->
    (strict_eq (get metadata "jwks_uri") JUndefined = true ->
     get_keys w
     = (Throw (Error "Metadata does not contain property jwks_uri"), w))
    /\ (strict_eq (get metadata "jwks_uri") JUndefined = false ->
        let jwks_uri := get metadata "jwks_uri" in
        let requested := mkWorld (service w) (log w ++ [GetJson jwks_uri]) in
        (forall keySet keys,
            getJson (log w) jwks_uri = Ok keySet ->
            prop keySet "keys" = Some keys ->
            truthy keys = false ->
            get_keys w
            = (Throw (Error "Missing keys on keyset"), requested))
        /\ (forall e,
               getJson (log w) jwks_uri = Throw e ->
               get_keys w = (Throw e, requested))).
Proof.
  intros w metadata Ht Hm. split.
  - intro Hu. unfold getSigningKeys, getKeysEndpoint.
    unfold bind at 1. unfold gets at 1. rewrite Ht.
    unfold bind at 1. rewrite getMetadataProperty_read.
    rewrite (getMetadata_cached settings getJson w metadata Hm).
    unfold read. now rewrite Hu.
  - intros Hu jwks_uri requested.
    pose proof (getSigningKeys_uncached w metadata Ht Hm Hu) as H.
    cbv zeta in H. fold jwks_uri requested in H.
    split.
    + intros keySet keys Hj Hp Hk. now rewrite H, Hj, Hp, Hk.
    + intros e Hj. now rewrite H, Hj.
Qed.

(** X5. A reset drops the keys and nothing else, so with the document
    cached the next [getSigningKeys] sends exactly one request, to
    [jwks_uri], and caches the keys it brings. *)
Theorem reset_forces_one_key_request :
  forall w metadata keySet keys,
    MetadataService._metadata (service w) = Some metadata ->
    strict_eq (get metadata "jwks_uri") JUndefined = false ->
    getJson (log w) (get metadata "jwks_uri") = Ok keySet ->
    prop keySet "keys" = Some keys ->
    truthy keys = true ->
    (resetSigningKeys ;; get_keys) w
    = (Ok keys,
       set_signingKeys keys
         (mkWorld (service w) (log w ++ [GetJson (get metadata "jwks_uri")]))).
Proof.
  intros w metadata keySet keys Hm Hu Hj Hp Hk.
  unfold bind at 1. unfold resetSigningKeys, modify.
  rewrite (getSigningKeys_uncached (set_signingKeys JNull w) metadata
             eq_refl Hm Hu).
  cbn [set_signingKeys log service]. now rewrite Hj, Hp, Hk.
Qed.

End MetadataReads.



Lemma signing_keys_are_fetched_once_witness :
  getSigningKeys Sample.settings Sample.getJson Sample.world
  = (Ok (JArr [Sample.k1; Sample.k2]), Sample.fetched)
  /\ getSigningKeys Sample.settings Sample.getJson Sample.fetched
     = (Ok (JArr [Sample.k1; Sample.k2]), Sample.fetched).
Proof.
  assert (H : getSigningKeys Sample.settings Sample.getJson Sample.world
              = (Ok (JArr [Sample.k1; Sample.k2]), Sample.fetched))
    by (vm_compute; reflexivity).
  split; [exact H | ].
  exact (proj1 (proj2 (signing_keys_are_fetched_once
                         Sample.settings Sample.getJson Sample.world
                         (JArr [Sample.k1; Sample.k2]) Sample.fetched H))).
Defined.

Lemma signing_keys_failures_witness :
  getSigningKeys Sample.static Sample.getJson Fixture.static
  = (Throw (Error "Metadata does not contain property jwks_uri"),
     Fixture.static)
  /\ getSigningKeys Sample.settings Fixture.hollow Fixture.keyless
     = (Throw (Error "Missing keys on keyset"),
        mkWorld (service Fixture.keyless)
          [GetJson (JStr "https://idp.example/jwks")])
  /\ getSigningKeys Sample.settings Sample.flaky Fixture.keyless
     = (Throw (Rejected (JStr "timeout")),
        mkWorld (service Fixture.keyless)
          [GetJson (JStr "https://idp.example/jwks")]).
Proof.
  split; [ | split ].
  - apply (proj1 (signing_keys_failures Sample.static Sample.getJson
                    Fixture.static
                    [("issuer", JStr "https://static.example")]
                    eq_refl eq_refl)).
    reflexivity.
  - apply (proj1 (proj2 (signing_keys_failures Sample.settings Fixture.hollow
                           Fixture.keyless _ eq_refl eq_refl) eq_refl)
             (JObj []) JUndefined);
      reflexivity.
  - apply (proj2 (proj2 (signing_keys_failures Sample.settings Sample.flaky
                           Fixture.keyless _ eq_refl eq_refl) eq_refl)).
    reflexivity.
Defined.

Lemma reset_forces_one_key_request_witness :
  (resetSigningKeys ;; getSigningKeys Sample.settings Sample.getJson)
    Sample.fetched
  = (Ok (JArr [Sample.k1; Sample.k2]), Sample.refetched).
Proof.
  apply (reset_forces_one_key_request Sample.settings Sample.getJson
           Sample.fetched _
           (JObj [("keys", JArr [Sample.k1; Sample.k2])])
           (JArr [Sample.k1; Sample.k2]) eq_refl);
    reflexivity.
Defined.


(** ** Protocol claims *)

Lemma lookup_delete (o : Obj) k k' :
  lookup (delete o k) k' = if k =? k' then None else lookup o k'.
Proof.
  unfold delete. induction o as [ | [k0 v0] o IH]; simpl.
  - now destruct (k =? k').
  - destruct (String.eqb_spec k0 k) as [-> | E]; simpl.
    + rewrite IH. destruct (String.eqb_spec k k'); reflexivity.
    + rewrite IH. destruct (String.eqb_spec k0 k') as [-> | E'];
        [ | reflexivity ].
      destruct (String.eqb_spec k k'); [congruence | reflexivity].
Qed.

Lemma lookup_delete_all names (o : Obj) name :
  lookup (fold_left delete names o) name
  = if existsb (String.eqb name) names then None else lookup o name.
Proof.
  revert o. induction names as [ | k names IH]; intro o; simpl;
    [reflexivity | ].
  rewrite IH, lookup_delete. rewrite (String.eqb_sym name k).
  destruct (k =? name); simpl; [ | reflexivity ].
  now destruct (existsb (String.eqb name) names).
Qed.



(** ** Outcomes of the correlation stage *)

(** X7. A sign-out response whose state matches is either returned with
    [state.data] in its [state] and nothing else changed, or, when it
    carries an error, refused with an [ErrorResponse] that wraps the three
    error fields and [state.data]. *)
Theorem signout_outcomes :
  forall state r,
    SignoutResponse.state r = JStr (State.id state) ->
    let r' := SignoutResponse.set_state (State.data state) r in
    validateSignoutResponse state r
    = if present (SignoutResponse.error r)
      then (Throw (ErrorResponseOf
                     (mkErrorResponse (SignoutResponse.error r)
                        (SignoutResponse.error_description r)
                        (SignoutResponse.error_uri r) (State.data state))),
            r')
      else (Ok r', r').
Proof.
  intros state r H r'. apply strict_eq_JStr in H.
  unfold validateSignoutResponse. st_unfold. rewrite H.
  cbn -[present]. now destruct (present (SignoutResponse.error r)).
Qed.

Lemma signout_outcomes_witness :
  validateSignoutResponse Sample.signout_state Sample.signout_denied
  = (Throw (ErrorResponseOf
              (mkErrorResponse (Some "access_denied") None None
                 (JStr "app-data"))),
     SignoutResponse.set_state (JStr "app-data") Sample.signout_denied).
Proof.
  exact (signout_outcomes Sample.signout_state Sample.signout_denied eq_refl).
Defined.

Section Correlation.

Variable settings : Settings.t.

Lemma correlated_inv state r :
  correlated settings state r = true ->
  strict_eq (JStr (SigninState.id state)) (SigninResponse.state r) = true
  /\ present (SigninState.client_id state) = true
  /\ present (SigninState.authority state) = true
  /\ strict_eq (of_opt (Settings.authority settings))
       (of_opt (SigninState.authority state)) = true
  /\ present (Settings.client_id settings)
     && negb (strict_eq (of_opt (Settings.client_id settings))
                (of_opt (SigninState.client_id state))) = false.
Proof.
  unfold correlated. intro H.
  repeat (apply andb_prop in H; destruct H as [H ?]).
  repeat split; try assumption. now apply negb_true_iff.
Qed.

(** What the stage does once the guards before the copy have passed. *)
Lemma processSigninParams_after_guards state r w :
  correlated settings state r = true ->
  _processSigninParams settings state (mkStore r w)
  = if present (SigninResponse.error r) then
      (Throw (ErrorResponseOf
                (wrap (SigninResponse.set_state (SigninState.data state) r))),
       mkStore (SigninResponse.set_state (SigninState.data state) r) w)
    else if consistent state r then
      (Ok tt, mkStore (correlated_response state r) w)
    else
      (Throw (Error
                (if present (SigninState.nonce state)
                    && negb (present (SigninResponse.id_token r))
                 then "No id_token in response"
                 else if negb (present (SigninState.nonce state))
                         && present (SigninResponse.id_token r)
                 then "Unexpected id_token in response"
                 else if present (SigninState.code_verifier state)
                         && negb (present (SigninResponse.code r))
                 then "No code in response"
                 else "Unexpected code in response")),
       mkStore (SigninResponse.set_state (SigninState.data state) r) w).
Proof.
  intro Hc. destruct (correlated_inv state r Hc) as (H1 & H2 & H3 & H4 & H5).
  unfold _processSigninParams. st_unfold.
  rewrite H1, H2, H3, H4, H5. cbn -[strict_eq present of_opt truthy].
  unfold consistent, correlated_response, opt_or.
  destruct (present (SigninResponse.error r)); [reflexivity | ].
  cbn -[strict_eq present of_opt truthy].
  destruct (present (SigninState.nonce state)),
    (present (SigninResponse.id_token r)),
    (present (SigninState.code_verifier state)),
    (present (SigninResponse.code r));
    cbn -[strict_eq present of_opt truthy]; try reflexivity;
    destruct (present (SigninResponse.scope r)); reflexivity.
Qed.

Lemma processSigninParams_uncorrelated state r w :
  correlated settings state r = false ->
  exists message,
    _processSigninParams settings state (mkStore r w)
    = (Throw (Error message), mkStore r w).
Proof.
  unfold correlated. intro H.
  unfold _processSigninParams. st_unfold.
  destruct (strict_eq (JStr (SigninState.id state)) (SigninResponse.state r));
    cbn -[strict_eq present of_opt truthy]; [ | eauto ].
  destruct (present (SigninState.client_id state));
    cbn -[strict_eq present of_opt truthy]; [ | eauto ].
  destruct (present (SigninState.authority state));
    cbn -[strict_eq present of_opt truthy]; [ | eauto ].
  destruct (strict_eq (of_opt (Settings.authority settings))
              (of_opt (SigninState.authority state)));
    cbn -[strict_eq present of_opt truthy]; [ | eauto ].
  cbn -[strict_eq present of_opt truthy] in H.
  apply negb_false_iff in H. rewrite H.
  cbn -[strict_eq present of_opt truthy]. eauto.
Qed.

(** What an accepted response has passed, and what is left of it. *)
Lemma processSigninParams_ok_inv state r w s :
  _processSigninParams settings state (mkStore r w) = (Ok tt, s) ->
  correlated settings state r = true
  /\ present (SigninResponse.error r) = false
  /\ consistent state r = true
  /\ s = mkStore (correlated_response state r) w.
Proof.
  intro H. destruct (correlated settings state r) eqn:Hc.
  - rewrite (processSigninParams_after_guards state r w Hc) in H.
    destruct (present (SigninResponse.error r)); [discriminate | ].
    destruct (consistent state r); [ | discriminate ].
    inversion H. auto.
  - destruct (processSigninParams_uncorrelated state r w Hc) as (m & E).
    rewrite E in H. discriminate.
Qed.

(** A response that passes all of it is accepted. *)
Lemma processSigninParams_ok_intro state r w :
  correlated settings state r = true ->
  present (SigninResponse.error r) = false ->
  consistent state r = true ->
  _processSigninParams settings state (mkStore r w)
  = (Ok tt, mkStore (correlated_response state r) w).
Proof.
  intros Hc He Hk.
  rewrite (processSigninParams_after_guards state r w Hc).
  now rewrite He, Hk.
Qed.

(** X8. The correlation stage accepts exactly the responses that pass the
    guards, carry no error and obey the presence laws; what it leaves is the
    response with [state.data] in [state] and, when the response has no
    scope, the requested scope in [scope], every other field and the world
    being as they were. *)
Theorem processSigninParams_accepts_exactly :
  forall state r w s,
    _processSigninParams settings state (mkStore r w) = (Ok tt, s)
    <-> (correlated settings state r = true
         /\ present (SigninResponse.error r) = false
         /\ consistent state r = true
         /\ s = mkStore (correlated_response state r) w).
Proof.
  intros state r w s. split.
  - apply processSigninParams_ok_inv.
  - intros (Hc & He & Hk & ->). now apply processSigninParams_ok_intro.
Qed.

End Correlation.


Lemma processSigninParams_accepts_witness :
  _processSigninParams Sample.settings Sample.state
    (mkStore Sample.answer Sample.world)
  = (Ok tt,
     mkStore (correlated_response Sample.state Sample.answer) Sample.world)
  /\ SigninResponse.scope (correlated_response Sample.state Sample.answer)
     = Some "openid".
Proof.
  split; [ | reflexivity ].
  apply (proj2 (processSigninParams_accepts_exactly Sample.settings
                  Sample.state Sample.answer Sample.world _)).
  repeat split; reflexivity.
Defined.

(** ** Outcomes of the whole validation *)

Section Outcomes.

Variable settings : Settings.t.
Variable getJson : list Event -> JsValue -> Result JsValue.
Variable exchangeCode : Obj -> ST World TokenResponse.t.
Variable getClaims : string -> ST World JsValue.
Variable parseJwt : string -> option Jwt.t.
Variable validateJwtAttributes :
  string -> JsValue -> option string -> Z -> Z -> Result JsValue.
Variable validateJwt :
  string -> JsValue -> JsValue -> option string -> Z -> Result unit.
Variable hashString : string -> string -> string.
Variable hexToBase64Url : string -> string.
Variable Date_now : World -> Z.
Variable isOpenIdConnect : SigninResponse.t -> bool.

Local Abbreviation signin :=
  (validateSigninResponse settings getJson exchangeCode getClaims parseJwt
     validateJwtAttributes validateJwt hashString hexToBase64Url Date_now
     isOpenIdConnect).
Local Abbreviation tokens :=
  (_validateTokens settings getJson exchangeCode parseJwt
     validateJwtAttributes validateJwt hashString hexToBase64Url Date_now).
Local Abbreviation claims_stage :=
  (_processClaims settings getClaims isOpenIdConnect).

(** X9. An error reported by the provider in a correlated response is
    thrown as an [ErrorResponse] that wraps the error fields and
    [state.data]; the response object holds the data and no request was
    sent. *)
Theorem provider_error_is_wrapped_with_data :
  forall state r w,
    correlated settings state r = true ->
    present (SigninResponse.error r) = true ->
    signin state (mkStore r w)
    = (Throw (ErrorResponseOf
                (mkErrorResponse (SigninResponse.error r)
                   (SigninResponse.error_description r)
                   (SigninResponse.error_uri r) (SigninState.data state))),
       mkStore (SigninResponse.set_state (SigninState.data state) r) w).
Proof.
  intros state r w Hc He. unfold validateSigninResponse.
  apply bind_throws.
  rewrite (processSigninParams_after_guards settings state r w Hc).
  now rewrite He.
Qed.

(** X10. A validation that returns has passed every check of the
    correlation stage, and the response it returns is the caller's object,
    with [state.data] in [state]. *)
Theorem signin_success_implies_correlation :
  forall state r w r' s',
    signin state (mkStore r w) = (Ok r', s') ->
    correlated settings state r = true
    /\ present (SigninResponse.error r) = false
    /\ consistent state r = true
    /\ r' = response s'
    /\ SigninResponse.state r' = SigninState.data state.
Proof.
  intros state r w r' s' H. unfold validateSigninResponse in H.
  apply bind_inv in H.
  destruct H as [(e & _ & E) | ([] & s0 & Hp & H)]; [discriminate | ].
  pose proof Hp as Hp'.
  apply processSigninParams_ok_inv in Hp.
  destruct Hp as (Hc & He & Hk & ->).
  assert (Hkeep := later_stages_keep_state settings getJson exchangeCode
                     getClaims parseJwt validateJwtAttributes validateJwt
                     hashString hexToBase64Url Date_now isOpenIdConnect
                     state _ _ _ H).
  repeat (apply bind_inv in H;
          destruct H as [(e & _ & E) | ([] & ? & _ & H)]; [discriminate | ]).
  inversion H; subst.
  repeat split; assumption.
Qed.

(** A response that is not OpenID Connect passes the claims stage as it
    is. *)
Lemma processClaims_not_oidc state s :
  isOpenIdConnect (response s) = false ->
  claims_stage state s = (Ok tt, s).
Proof.
  intro H. unfold _processClaims, bind, gets, ret. cbn.
  rewrite H. now destruct s.
Qed.

(** An OpenID Connect response for which user info is not to be loaded only
    has its profile filtered. *)
Lemma processClaims_filters_only state s :
  isOpenIdConnect (response s) = true ->
  SigninState.skipUserInfo state = Some true
  \/ Settings.loadUserInfo settings = false
  \/ present (SigninResponse.access_token (response s)) = false ->
  claims_stage state s
  = (Ok tt,
     mkStore
       (SigninResponse.set_profile
          (_filterProtocolClaims settings
             (SigninResponse.profile (response s)))
          (response s))
       (world s)).
Proof.
  intros H Hno.
  unfold _processClaims, bind, gets, update, modify, ret.
  cbn -[nonempty _filterProtocolClaims _mergeClaims].
  rewrite H. cbn -[nonempty _filterProtocolClaims _mergeClaims].
  unfold nonempty.
  destruct (present (SigninResponse.access_token (response s))) eqn:Ht;
    [ | reflexivity ].
  destruct (SigninResponse.access_token (response s)) as [token | ];
    [ | reflexivity ].
  destruct Hno as [-> | [-> | Hf] ]; try discriminate;
    cbn -[_filterProtocolClaims _mergeClaims]; try reflexivity.
  now rewrite andb_false_r.
Qed.

(** X11. The claims stage without user info: a response that is not OpenID
    Connect is left alone; one that is has its profile filtered and, when
    the state skips user info, [loadUserInfo] is off or there is no access
    token, nothing else happens: the user-info service is not called. *)
Theorem processClaims_without_userinfo :
  forall state s,
    (isOpenIdConnect (response s) = false ->
     claims_stage state s = (Ok tt, s))
    /\ (isOpenIdConnect (response s) = true ->
        SigninState.skipUserInfo state = Some true
        \/ Settings.loadUserInfo settings = false
        \/ present (SigninResponse.access_token (response s)) = false ->
        claims_stage state s
        = (Ok tt,
           mkStore
             (SigninResponse.set_profile
                (_filterProtocolClaims settings
                   (SigninResponse.profile (response s)))
                (response s))
             (world s))).
Proof.
  intros state s. split.
  - apply processClaims_not_oidc.
  - apply processClaims_filters_only.
Qed.

(** X12. A correlated answer without code and without id_token, which is
    not OpenID Connect, is returned with the data and the defaulted scope
    and the world is untouched: no request is sent for it. *)
Theorem plain_response_needs_no_network :
  forall state r w,
    correlated settings state r = true ->
    present (SigninResponse.error r) = false ->
    present (SigninState.nonce state) = false ->
    present (SigninState.code_verifier state) = false ->
    present (SigninResponse.id_token r) = false ->
    present (SigninResponse.code r) = false ->
    isOpenIdConnect (correlated_response state r) = false ->
    signin state (mkStore r w)
    = (Ok (correlated_response state r),
       mkStore (correlated_response state r) w).
Proof.
  intros state r w Hc He Hn Hv Hi Hcode Hoidc.
  unfold validateSigninResponse.
  assert (Hp : _processSigninParams settings state (mkStore r w)
               = (Ok tt, mkStore (correlated_response state r) w)).
  { apply processSigninParams_ok_intro; try assumption.
    unfold consistent. now rewrite Hn, Hv, Hi, Hcode. }
  rewrite (bind_returns _ _ _ _ _ Hp).
  assert (Ht : tokens state (mkStore (correlated_response state r) w)
               = (Ok tt, mkStore (correlated_response state r) w)).
  { unfold _validateTokens, bind, gets, ret, nonempty.
    cbn -[present opt_or]. now rewrite Hcode, Hi. }
  rewrite (bind_returns _ _ _ _ _ Ht).
  rewrite (bind_returns _ _ _ _ _
             (processClaims_not_oidc state
                (mkStore (correlated_response state r) w) Hoidc)).
  reflexivity.
Qed.

End Outcomes.


Lemma provider_error_witness :
  Sample.validate Sample.state (mkStore Sample.denied Sample.world)
  = (Throw (ErrorResponseOf
              (mkErrorResponse (Some "access_denied") None None
                 (JStr "app-data"))),
     mkStore (SigninResponse.set_state (JStr "app-data") Sample.denied)
       Sample.world).
Proof.
  exact (provider_error_is_wrapped_with_data
           Sample.settings Sample.getJson Sample.exchangeCode
           Sample.getClaims Sample.parseJwt
           Sample.validateJwtAttributes Sample.validateJwt
           Sample.hashString Sample.hexToBase64Url Sample.Date_now
           Sample.isOpenIdConnect Sample.state Sample.denied Sample.world
           eq_refl eq_refl).
Defined.

(** The sample answer passes the whole validation when the user-info
    service agrees on the subject. *)
Example sample_answer_is_accepted :
  exists r' s',
    Fixture.validate Sample.state (mkStore Sample.answer Sample.world)
    = (Ok r', s')
    /\ SigninResponse.profile r' = Fixture.profile
    /\ world s' = Sample.fetched.
Proof. do 2 eexists. split; [vm_compute; reflexivity | split; reflexivity]. Qed.

Lemma signin_success_witness :
  correlated Sample.settings Sample.state Sample.answer = true
  /\ consistent Sample.state Sample.answer = true
  /\ SigninResponse.state
       (SigninResponse.set_profile Fixture.profile
          (correlated_response Sample.state Sample.answer))
     = SigninState.data Sample.state.
Proof.
  destruct (signin_success_implies_correlation
              Sample.settings Sample.getJson Sample.exchangeCode
              Fixture.getClaims Sample.parseJwt
              Sample.validateJwtAttributes Sample.validateJwt
              Sample.hashString Sample.hexToBase64Url Sample.Date_now
              Sample.isOpenIdConnect Sample.state Sample.answer Sample.world
              (SigninResponse.set_profile Fixture.profile
                 (correlated_response Sample.state Sample.answer))
              (mkStore
                 (SigninResponse.set_profile Fixture.profile
                    (correlated_response Sample.state Sample.answer))
                 Sample.fetched))
    as (Hc & _ & Hk & _ & Hs).
  - vm_compute. reflexivity.
  - split; [exact Hc | split; [exact Hk | exact Hs] ].
Defined.

Lemma processClaims_without_userinfo_witness :
  _processClaims Sample.settings Sample.getClaims Sample.isOpenIdConnect
    Fixture.skipping (mkStore Sample.validated Sample.fetched)
  = (Ok tt,
     mkStore
       (SigninResponse.set_profile (JObj [("sub", JStr "abc")])
          Sample.validated)
       Sample.fetched)
  /\ _processClaims Sample.settings Sample.getClaims Sample.isOpenIdConnect
       Fixture.plain_state (mkStore Fixture.plain Sample.world)
     = (Ok tt, mkStore Fixture.plain Sample.world).
Proof.
  split.
  - apply (proj2 (processClaims_without_userinfo Sample.settings
                    Sample.getClaims Sample.isOpenIdConnect Fixture.skipping
                    (mkStore Sample.validated Sample.fetched))).
    + reflexivity.
    + left. reflexivity.
  - apply (proj1 (processClaims_without_userinfo Sample.settings
                    Sample.getClaims Sample.isOpenIdConnect
                    Fixture.plain_state
                    (mkStore Fixture.plain Sample.world))).
    reflexivity.
Defined.

Lemma plain_response_witness :
  Sample.validate Fixture.plain_state (mkStore Fixture.plain Sample.world)
  = (Ok (correlated_response Fixture.plain_state Fixture.plain),
     mkStore (correlated_response Fixture.plain_state Fixture.plain)
       Sample.world)
  /\ SigninResponse.scope
       (correlated_response Fixture.plain_state Fixture.plain)
     = Some "api".
Proof.
  split; [ | reflexivity ].
  apply (plain_response_needs_no_network
           Sample.settings Sample.getJson Sample.exchangeCode
           Sample.getClaims Sample.parseJwt
           Sample.validateJwtAttributes Sample.validateJwt
           Sample.hashString Sample.hexToBase64Url Sample.Date_now
           Sample.isOpenIdConnect Fixture.plain_state Fixture.plain
           Sample.world);
    reflexivity.
Defined.


(** ** What a successful token validation has checked *)

Lemma throw_if_ok {S : Type} cond message (s s' : S) a :
  throw_if cond message s = (Ok a, s') -> cond = false /\ s' = s.
Proof.
  unfold throw_if, throw, ret. destruct cond; intro E; inversion E; auto.
Qed.

Lemma defined_ok {S A : Type} (o : option A) (s s' : S) a :
  defined o s = (Ok a, s') -> o = Some a /\ s' = s.
Proof.
  unfold defined, throw, ret. destruct o; intro E; inversion E; auto.
Qed.

Lemma in_world_ok {A : Type} (c : ST World A) s a s' :
  in_world c s = (Ok a, s') ->
  exists w, c (world s) = (Ok a, w) /\ s' = mkStore (response s) w.
Proof.
  unfold in_world. destruct (c (world s)) as [r w]. intro E.
  inversion E; subst. now exists w.
Qed.

Lemma settle_ok {S A : Type} (r : Result A) (s s' : S) a :
  settle r s = (Ok a, s') -> r = Ok a /\ s' = s.
Proof. unfold settle. intro E. inversion E; auto. Qed.

(** Splits a successful sequence into its successful steps. *)
Ltac ok_step H :=
  apply bind_inv in H;
  let e := fresh "e" in
  let E := fresh "E" in
  let a := fresh "a" in
  let s := fresh "s" in
  let H1 := fresh "Hstep" in
  destruct H as [(e & _ & E) | (a & s & H1 & H)]; [discriminate | ].

(** The same, naming the value, the store and the fact of the step. *)
Ltac ok_step_as H a s H1 :=
  apply bind_inv in H;
  let e := fresh "e" in
  let E := fresh "E" in
  destruct H as [(e & _ & E) | (a & s & H1 & H)]; [discriminate | ].

Section TokenValidation.

Variable settings : Settings.t.
Variable getJson : list Event -> JsValue -> Result JsValue.
Variable exchangeCode : Obj -> ST World TokenResponse.t.
Variable parseJwt : string -> option Jwt.t.
Variable validateJwtAttributes :
  string -> JsValue -> option string -> Z -> Z -> Result JsValue.
Variable validateJwt :
  string -> JsValue -> JsValue -> option string -> Z -> Result unit.
Variable Date_now : World -> Z.

Local Abbreviation validate_id_token :=
  (_validateIdToken settings getJson parseJwt validateJwt).
Local Abbreviation validate_attributes :=
  (_validateIdTokenAttributes settings getJson validateJwtAttributes Date_now).
Local Abbreviation processCode :=
  (_processCode settings getJson exchangeCode validateJwtAttributes Date_now).

(** X13. An id_token that passes the full validation was parsed, carries
    the nonce of the request and a truthy [sub], and was accepted by
    [validateJwt] under a truthy key that the key resolution produced, for
    the issuer of the metadata, the client_id of the request and the
    configured clock skew; its payload is the profile, and nothing else of
    the response has changed. *)
Theorem validateIdToken_success_implies :
  forall state id_token s s',
    validate_id_token state id_token s = (Ok tt, s') ->
    exists jwt nonce issuer key w1 w2 payload_sub,
      SigninState.nonce state = Some nonce
      /\ nonce <> ""
      /\ parseJwt id_token = Some jwt
      /\ prop (Jwt.payload jwt) "nonce" = Some (JStr nonce)
      /\ getIssuer settings getJson (world s) = (Ok issuer, w1)
      /\ _getSigningKeyForJwtWithSingleRetry settings getJson jwt w1
         = (Ok key, w2)
      /\ truthy key = true
      /\ validateJwt id_token key issuer (SigninState.client_id state)
           (Settings.clockSkewInSeconds settings) = Ok tt
      /\ prop (Jwt.payload jwt) "sub" = Some payload_sub
      /\ truthy payload_sub = true
      /\ s' = mkStore
                (SigninResponse.set_profile (Jwt.payload jwt) (response s))
                w2.
Proof.
  intros state id_token s s' H. unfold _validateIdToken in H.
  ok_step H. apply throw_if_ok in Hstep. destruct Hstep as (Hn & ->).
  apply negb_false_iff in Hn.
  destruct (parseJwt id_token) as [jwt | ]; [ | discriminate ].
  ok_step H. apply throw_if_ok in Hstep. destruct Hstep as (_ & ->).
  ok_step H. apply defined_ok in Hstep. destruct Hstep as (Hpn & ->).
  ok_step H. apply throw_if_ok in Hstep. destruct Hstep as (Heq & ->).
  apply negb_false_iff in Heq.
  ok_step H. apply in_world_ok in Hstep. destruct Hstep as (w1 & Hi & ->).
  ok_step H. apply in_world_ok in Hstep. destruct Hstep as (w2 & Hk & ->).
  cbn [world response] in *.
  ok_step H. apply throw_if_ok in Hstep. destruct Hstep as (Ht & ->).
  apply negb_false_iff in Ht.
  ok_step H. apply settle_ok in Hstep. destruct Hstep as (Hv & ->).
  ok_step H. apply defined_ok in Hstep. destruct Hstep as (Hps & ->).
  ok_step H. apply throw_if_ok in Hstep. destruct Hstep as (Hsub & ->).
  apply negb_false_iff in Hsub.
  inversion H; subst; clear H.
  destruct (SigninState.nonce state) as [nonce | ] eqn:En; [ | discriminate ].
  apply strict_eq_JStr in Heq. subst.
  repeat match goal with u : unit |- _ => destruct u end.
  exists jwt, nonce. do 5 eexists.
  repeat split; try eassumption; try reflexivity.
  now apply present_Some.
Qed.

(** X14. An id_token that passes the attribute validation of the code flow
    was accepted by [validateJwtAttributes] for the issuer of the metadata,
    the client_id of the request, the configured clock skew and the current
    epoch time; the payload it returned has a truthy [sub] and, when the
    request stored a nonce, that nonce; this payload is the profile and
    nothing else of the response has changed. *)
Theorem validateIdTokenAttributes_success_implies :
  forall state id_token s s',
    validate_attributes state id_token s = (Ok tt, s') ->
    exists issuer w1 payload payload_sub,
      getIssuer settings getJson (world s) = (Ok issuer, w1)
      /\ validateJwtAttributes id_token issuer (SigninState.client_id state)
           (Settings.clockSkewInSeconds settings) (Date_now w1 / 1000)%Z
         = Ok payload
      /\ (forall nonce,
             SigninState.nonce state = Some nonce -> nonce <> "" ->
             prop payload "nonce" = Some (JStr nonce))
      /\ prop payload "sub" = Some payload_sub
      /\ truthy payload_sub = true
      /\ s' = mkStore (SigninResponse.set_profile payload (response s)) w1.
Proof.
  intros state id_token s s' H. unfold _validateIdTokenAttributes in H.
  ok_step_as H issuer s1 Hi.
  apply in_world_ok in Hi. destruct Hi as (w1 & Hi & ->).
  ok_step_as H now s2 Hnow. inversion Hnow; subst; clear Hnow.
  ok_step_as H payload s3 Hv.
  apply settle_ok in Hv. destruct Hv as (Hv & ->).
  ok_step_as H u s4 Hcheck.
  ok_step_as H payload_sub s5 Hps.
  apply defined_ok in Hps. destruct Hps as (Hps & ->).
  ok_step_as H u' s6 Hsub.
  apply throw_if_ok in Hsub. destruct Hsub as (Hsub & ->).
  apply negb_false_iff in Hsub.
  assert (Hnonce : s4 = mkStore (response s) w1
                   /\ forall nonce,
                        SigninState.nonce state = Some nonce -> nonce <> "" ->
                        prop payload "nonce" = Some (JStr nonce)).
  { destruct (present (SigninState.nonce state)) eqn:Hp.
    - ok_step_as Hcheck payload_nonce s7 Hpn.
      apply defined_ok in Hpn. destruct Hpn as (Hpn & ->).
      apply throw_if_ok in Hcheck. destruct Hcheck as (Heq & ->).
      apply negb_false_iff in Heq. split; [reflexivity | ].
      intros nonce En _. rewrite En in Heq. apply strict_eq_JStr in Heq.
      now subst.
    - inversion Hcheck; subst. split; [reflexivity | ].
      intros nonce En Hne. rewrite En in Hp.
      apply present_Some in Hne. congruence. }
  destruct Hnonce as (-> & Hnonce).
  inversion H; subst; clear H.
  exists issuer, w1, payload, payload_sub. cbn [world response].
  repeat split; assumption.
Qed.

(** X15. A failure of the code exchange is passed on as it is, and the
    response is left as it was. *)
Theorem exchange_failure_propagates :
  forall state s e w1,
    exchangeCode (token_request state (response s)) (world s) = (Throw e, w1) ->
    processCode state s = (Throw e, mkStore (response s) w1).
Proof.
  intros state s e w1 Hex. unfold token_request in Hex.
  unfold _processCode, bind, gets, in_world.
  cbn -[assign truthy typeof_object of_opt or_else opt_or parsed_or nonempty
          _validateIdTokenAttributes].
  now rewrite Hex.
Qed.

End TokenValidation.


Lemma validateIdToken_success_witness :
  exists jwt nonce issuer key w1 w2 payload_sub,
    SigninState.nonce Sample.state = Some nonce
    /\ nonce <> ""
    /\ Sample.parseJwt "header.payload.signature" = Some jwt
    /\ prop (Jwt.payload jwt) "nonce" = Some (JStr nonce)
    /\ getIssuer Sample.settings Sample.getJson Sample.world
       = (Ok issuer, w1)
    /\ _getSigningKeyForJwtWithSingleRetry Sample.settings Sample.getJson
         jwt w1
       = (Ok key, w2)
    /\ truthy key = true
    /\ Sample.validateJwt "header.payload.signature" key issuer
         (SigninState.client_id Sample.state)
         (Settings.clockSkewInSeconds Sample.settings) = Ok tt
    /\ prop (Jwt.payload jwt) "sub" = Some payload_sub
    /\ truthy payload_sub = true
    /\ mkStore Sample.validated Sample.fetched
       = mkStore
           (SigninResponse.set_profile (Jwt.payload jwt) Sample.answer) w2.
Proof.
  apply (validateIdToken_success_implies Sample.settings Sample.getJson
           Sample.parseJwt Sample.validateJwt Sample.state
           "header.payload.signature" (mkStore Sample.answer Sample.world)
           (mkStore Sample.validated Sample.fetched)).
  vm_compute. reflexivity.
Defined.

Lemma validateIdTokenAttributes_success_witness :
  exists issuer w1 payload payload_sub,
    getIssuer Sample.settings Sample.getJson Sample.world = (Ok issuer, w1)
    /\ Sample.validateJwtAttributes "header.payload.signature" issuer
         (SigninState.client_id Sample.state)
         (Settings.clockSkewInSeconds Sample.settings)
         (Sample.Date_now w1 / 1000)%Z
       = Ok payload
    /\ (forall nonce,
           SigninState.nonce Sample.state = Some nonce -> nonce <> "" ->
           prop payload "nonce" = Some (JStr nonce))
    /\ prop payload "sub" = Some payload_sub
    /\ truthy payload_sub = true
    /\ mkStore Sample.validated
         (mkWorld
            (MetadataService.mk
               (MetadataService._metadataUrl (service Sample.fetched)) JNull
               (MetadataService._metadata (service Sample.fetched)))
            [GetJson
               (JStr "https://idp.example/.well-known/openid-configuration")])
       = mkStore (SigninResponse.set_profile payload Sample.answer) w1.
Proof.
  apply (validateIdTokenAttributes_success_implies Sample.settings
           Sample.getJson Sample.validateJwtAttributes Sample.Date_now
           Sample.state "header.payload.signature"
           (mkStore Sample.answer Sample.world)).
  vm_compute. reflexivity.
Defined.

Lemma exchange_failure_witness :
  _processCode Sample.settings Sample.getJson Fixture.refusing
    Sample.validateJwtAttributes Sample.Date_now Sample.state
    (mkStore Sample.coded Sample.world)
  = (Throw (Rejected (JStr "invalid_grant")),
     mkStore Sample.coded Sample.world).
Proof.
  apply (exchange_failure_propagates Sample.settings Sample.getJson
           Fixture.refusing Sample.validateJwtAttributes Sample.Date_now
           Sample.state (mkStore Sample.coded Sample.world)).
  reflexivity.
Defined.


(** ** What a merge of claims keeps *)

Lemma strict_eq_true_eq a b : strict_eq a b = true -> a = b.
Proof.
  destruct a, b; simpl; try discriminate; intro H; try reflexivity.
  - apply Bool.eqb_prop in H. now subst.
  - apply Z.eqb_eq in H. now subst.
  - apply String.eqb_eq in H. now subst.
  - apply String.eqb_eq in H. now subst.
Qed.

Lemma set_keys (o : Obj) k v :
  map fst (set o k v)
  = if existsb (String.eqb k) (map fst o) then map fst o
    else map fst o ++ [k].
Proof.
  induction o as [ | [k' v'] o IH]; simpl; [reflexivity | ].
  rewrite (String.eqb_sym k k').
  destruct (k' =? k); simpl; [reflexivity | ].
  rewrite IH. now destruct (existsb (String.eqb k) (map fst o)).
Qed.

Lemma set_NoDup (o : Obj) k v :
  NoDup (map fst o) -> NoDup (map fst (set o k v)).
Proof.
  intro H. rewrite set_keys.
  destruct (existsb (String.eqb k) (map fst o)) eqn:E; [exact H | ].
  apply NoDup_app; [ exact H | repeat constructor; simpl; tauto | ].
  intros x Hx [E' | [] ]. subst x.
  assert (existsb (String.eqb k) (map fst o) = true); [ | congruence ].
  apply existsb_exists. exists k. split; [exact Hx | apply String.eqb_refl].
Qed.

Lemma assign_NoDup (target : Obj) src :
  NoDup (map fst target) -> NoDup (map fst (assign target src)).
Proof.
  unfold assign. generalize (own_entries src). intro entries.
  revert target. induction entries as [ | [k v] entries IH];
    intros target H; simpl; [exact H | ].
  apply IH. now apply set_NoDup.
Qed.

Lemma delete_NoDup (o : Obj) k :
  NoDup (map fst o) -> NoDup (map fst (delete o k)).
Proof.
  unfold delete. induction o as [ | [k' v'] o IH]; simpl; [trivial | ].
  intro H. inversion H as [ | ? ? Hnotin Hnd]; subst.
  destruct (negb (k' =? k)); simpl; [ | now apply IH ].
  constructor; [ | now apply IH ].
  intro Hin. apply Hnotin. apply in_map_iff in Hin.
  destruct Hin as ([k0 v0] & <- & Hin). apply filter_In in Hin.
  apply in_map_iff. exists (k0, v0). tauto.
Qed.

(** A filtered profile is a well-formed object, whatever the profile was. *)
Lemma filterProtocolClaims_object settings claims :
  exists result,
    _filterProtocolClaims settings claims = JObj result
    /\ NoDup (map fst result).
Proof.
  unfold _filterProtocolClaims.
  assert (H : NoDup (map fst (assign [] claims)))
    by (apply assign_NoDup; constructor).
  destruct (Settings.filterProtocolClaims settings); eexists;
    (split; [reflexivity | ]); [ | exact H ].
  revert H. generalize (assign [] claims). generalize ProtocolClaims.
  intro names. induction names as [ | k names IH]; intros o H; simpl;
    [exact H | ].
  apply IH. now apply delete_NoDup.
Qed.

Section MergeKeeps.

Variable settings : Settings.t.

Lemma mergeClaims_is_object claims1 claims2 :
  exists result, _mergeClaims settings claims1 claims2 = JObj result.
Proof. destruct claims2; eexists; reflexivity. Qed.

Lemma merged_truthy deep recur current value :
  (forall c, truthy (recur c) = true) ->
  truthy current = true ->
  truthy (merged deep recur current value) = true.
Proof.
  intros Hr Ht. unfold merged. rewrite Ht. cbn [negb].
  destruct current;
    repeat match goal with
           | |- context [if ?b then _ else _] => destruct b
           end;
    auto.
Qed.

Lemma merge_name_truthy name values result :
  truthy (get result name) = true ->
  truthy (get (merge_name settings name values result) name) = true.
Proof.
  assert (Hr : forall value c,
             truthy (_mergeClaims settings c value) = true).
  { intros value c. destruct (mergeClaims_is_object c value) as (o & ->).
    reflexivity. }
  intro H. unfold merge_name.
  destruct values;
    try (rewrite get_merge_value_same; apply merged_truthy; auto).
  revert result H. induction items as [ | value items IH]; intros result H;
    cbn [fold_left]; [exact H | ].
  apply IH. rewrite get_merge_value_same. apply merged_truthy; auto.
Qed.


End MergeKeeps.



(** ** The profile after user info *)

Section UserInfoMerge.

Variable settings : Settings.t.
Variable getClaims : string -> ST World JsValue.
Variable isOpenIdConnect : SigninResponse.t -> bool.

Local Abbreviation claims_stage :=
  (_processClaims settings getClaims isOpenIdConnect).

Lemma processClaims_with_userinfo state s access_token claims w2
      claims_sub profile_sub :
  isOpenIdConnect (response s) = true ->
  SigninState.skipUserInfo state <> Some true ->
  Settings.loadUserInfo settings = true ->
  nonempty (SigninResponse.access_token (response s)) = Some access_token ->
  getClaims access_token (world s) = (Ok claims, w2) ->
  prop claims "sub" = Some claims_sub ->
  prop (_filterProtocolClaims settings (SigninResponse.profile (response s)))
    "sub" = Some profile_sub ->
  strict_eq claims_sub profile_sub = true ->
  claims_stage state s
  = (Ok tt,
     mkStore
       (SigninResponse.set_profile
          (_mergeClaims settings
             (_filterProtocolClaims settings
                (SigninResponse.profile (response s)))
             claims)
          (response s))
       w2).
Proof.
  intros Hoidc Hskip Hload Htok Hclaims Hcs Hps Heq.
  unfold _processClaims, bind, gets, update, modify, throw_if, throw, ret,
    defined, in_world.
  cbn -[strict_eq nonempty prop _filterProtocolClaims _mergeClaims].
  rewrite Hoidc.
  cbn -[strict_eq nonempty prop _filterProtocolClaims _mergeClaims].
  rewrite Htok, Hload.
  assert (Hs : match SigninState.skipUserInfo state with
               | Some true => true
               | _ => false
               end = false).
  { destruct (SigninState.skipUserInfo state) as [ [ | ] | ];
      congruence. }
  rewrite Hs.
  cbn -[strict_eq nonempty prop _filterProtocolClaims _mergeClaims].
  rewrite Hclaims.
  cbn -[strict_eq nonempty prop _filterProtocolClaims _mergeClaims].
  rewrite Hcs.
  cbn -[strict_eq nonempty prop _filterProtocolClaims _mergeClaims].
  rewrite Hps.
  cbn -[strict_eq nonempty prop _filterProtocolClaims _mergeClaims].
  now rewrite Heq.
Qed.

Lemma merge_keeps_equal_claim filtered c2 name :
  NoDup (map fst filtered) ->
  NoDup (map fst c2) ->
  strict_eq (get c2 name) (get filtered name) = true ->
  exists merged,
    _mergeClaims settings (JObj filtered) (JObj c2) = JObj merged
    /\ get merged name = get filtered name.
Proof.
  intros Hf Hc Heq. rewrite mergeClaims_object.
  eexists. split; [reflexivity | ].
  assert (Hget : get (assign [] (JObj filtered)) name = get filtered name).
  { unfold get. rewrite lookup_assign by assumption.
    now destruct (lookup filtered name). }
  rewrite get_merge_names by assumption.
  destruct (lookup c2 name) as [value | ] eqn:El; [ | exact Hget ].
  assert (Hv : get c2 name = value) by (unfold get; now rewrite El).
  rewrite Hv in Heq. pose proof (strict_eq_true_eq _ _ Heq) as E.
  rewrite <- E in Heq. unfold merge_name.
  destruct value; try discriminate;
    rewrite get_merge_value_same, Hget, <- E; unfold merged;
    rewrite ?Heq; cbn [negb];
    repeat match goal with
           | |- context [if ?b then _ else _] => destruct b
           end;
    reflexivity.
Qed.


End UserInfoMerge.



(** ** The in-memory storage *)

Module StorageFacts.

Import InMemoryWebStorage.

Lemma own_assign_same data key value :
  own (assign_own data key value) key = Some value.
Proof.
  induction data as [ | [k v] data IH]; simpl.
  - now rewrite String.eqb_refl.
  - destruct (String.eqb_spec k key) as [-> | E]; simpl.
    + now rewrite String.eqb_refl.
    + destruct (String.eqb_spec k key); [contradiction | exact IH].
Qed.

Lemma own_assign_other data key value key' :
  key <> key' -> own (assign_own data key value) key' = own data key'.
Proof.
  intro Hne. induction data as [ | [k v] data IH]; simpl.
  - destruct (String.eqb_spec key key'); [contradiction | reflexivity].
  - destruct (String.eqb_spec k key) as [-> | E]; simpl.
    + destruct (String.eqb_spec key key'); [contradiction | reflexivity].
    + now rewrite IH.
Qed.

Lemma own_remove data key key' :
  own (filter (fun kv => negb (fst kv =? key)) data) key'
  = if key =? key' then None else own data key'.
Proof.
  induction data as [ | [k v] data IH]; simpl.
  - now destruct (key =? key').
  - destruct (String.eqb_spec k key) as [-> | E]; simpl.
    + rewrite IH. now destruct (String.eqb_spec key key').
    + rewrite IH. destruct (String.eqb_spec k key') as [-> | E'];
        [ | reflexivity ].
      destruct (String.eqb_spec key key'); [congruence | reflexivity].
Qed.

(** X18. What is stored under a key is read back, and storing under one key
    leaves every other key as it was; the one exception is the key
    [__proto__], under which nothing can be stored. *)
Theorem setItem_getItem :
  forall s key value,
    (key <> "__proto__" -> getItem (setItem s key value) key = JStr value)
    /\ (forall key', key' <> key ->
                     getItem (setItem s key value) key' = getItem s key')
    /\ setItem s "__proto__" value = s.
Proof.
  intros s key value. split; [ | split ].
  - intro Hne. unfold setItem.
    destruct (String.eqb_spec key "__proto__"); [contradiction | ].
    unfold getItem. cbn [_data]. now rewrite own_assign_same.
  - intros key' Hne. unfold setItem.
    destruct (key =? "__proto__"); [reflexivity | ].
    unfold getItem. cbn [_data]. rewrite own_assign_other; congruence.
  - reflexivity.
Qed.

(** X19. A removed key reads as in an empty storage, whatever was stored
    under it, and removing one key leaves every other key as it was; after
    [clear] every key reads as in an empty storage. *)
Theorem removeItem_getItem :
  forall s key,
    getItem (removeItem s key) key = getItem constructor key
    /\ (forall key', key' <> key ->
                     getItem (removeItem s key) key' = getItem s key')
    /\ (forall key', getItem (clear s) key' = getItem constructor key').
Proof.
  intros s key. split; [ | split ].
  - unfold getItem, removeItem. cbn [_data]. rewrite own_remove.
    now rewrite String.eqb_refl.
  - intros key' Hne. unfold getItem, removeItem. cbn [_data].
    rewrite own_remove.
    destruct (String.eqb_spec key key'); [congruence | reflexivity].
  - reflexivity.
Qed.

Lemma insert_index_perm entry sorted :
  Permutation (insert_index entry sorted) (entry :: sorted).
Proof.
  induction sorted as [ | e sorted IH]; simpl; [reflexivity | ].
  destruct (fst entry <=? fst e)%N; [reflexivity | ].
  rewrite IH. apply perm_swap.
Qed.

Lemma index_names_perm names :
  Permutation (map snd (index_names names))
    (filter (fun name =>
               match array_index name with Some _ => true | None => false end)
       names).
Proof.
  induction names as [ | name names IH]; simpl; [reflexivity | ].
  destruct (array_index name) as [n | ]; [ | exact IH ].
  rewrite insert_index_perm. simpl. now rewrite IH.
Qed.

Lemma partition_perm {A : Type} (p : A -> bool) (l : list A) :
  Permutation (filter p l ++ filter (fun x => negb (p x)) l) l.
Proof.
  induction l as [ | x l IH]; simpl; [reflexivity | ].
  destruct (p x); simpl.
  - now rewrite IH.
  - rewrite <- Permutation_middle. now rewrite IH.
Qed.

(** The names are the keys of the object, each once, in some order. *)
Lemma getOwnPropertyNames_perm data :
  Permutation (getOwnPropertyNames data) (map fst data).
Proof.
  unfold getOwnPropertyNames. rewrite index_names_perm.
  rewrite <- (partition_perm
                (fun name => match array_index name with
                             | Some _ => true
                             | None => false
                             end) (map fst data)) at 3.
  apply Permutation_app_head.
  erewrite filter_ext; [reflexivity | ].
  intro name. cbv beta. now destruct (array_index name).
Qed.

Lemma assign_own_keys data key value :
  map fst (assign_own data key value)
  = match own data key with
    | Some _ => map fst data
    | None => map fst data ++ [key]
    end.
Proof.
  induction data as [ | [k v] data IH]; simpl; [reflexivity | ].
  destruct (k =? key); simpl; [reflexivity | ].
  rewrite IH. now destruct (own data key).
Qed.

Lemma own_None_not_In data key :
  own data key = None <-> ~ In key (map fst data).
Proof.
  induction data as [ | [k v] data IH]; simpl; [tauto | ].
  destruct (String.eqb_spec k key) as [-> | E].
  - split; [discriminate | tauto].
  - rewrite IH. tauto.
Qed.

(** Every storage a program can build has each key once. *)
Lemma reachable_NoDup s : reachable s -> NoDup (map fst (_data s)).
Proof.
  induction 1 as [ | s _ _ | s key value _ IH | s key _ IH]; simpl.
  - constructor.
  - constructor.
  - unfold setItem. destruct (key =? "__proto__"); [exact IH | ].
    cbn [_data]. rewrite assign_own_keys.
    destruct (own (_data s) key) eqn:E; [exact IH | ].
    apply NoDup_app; [exact IH | repeat constructor; simpl; tauto | ].
    intros x Hx [E' | [] ]. subst x. now apply own_None_not_In in E.
  - induction (_data s) as [ | [k v] data IHd]; simpl; [constructor | ].
    inversion IH as [ | ? ? Hnotin Hnd]; subst.
    destruct (negb (k =? key)); simpl; [ | now apply IHd ].
    constructor; [ | now apply IHd ].
    intro Hin. apply Hnotin. apply in_map_iff in Hin.
    destruct Hin as ([k0 v0] & <- & Hin). apply filter_In in Hin.
    apply in_map_iff. exists (k0, v0). tauto.
Qed.

Lemma length_data s : length s = List.length (_data s).
Proof.
  unfold length. rewrite (Permutation_length (getOwnPropertyNames_perm _)).
  apply length_map.
Qed.

Lemma remove_length data key :
  NoDup (map fst data) ->
  List.length (filter (fun kv => negb (fst kv =? key)) data)
  = match own data key with
    | Some _ => (List.length data - 1)%nat
    | None => List.length data
    end.
Proof.
  induction data as [ | [k v] data IH]; simpl; [reflexivity | ].
  intro H. inversion H as [ | ? ? Hnotin Hnd]; subst.
  destruct (String.eqb_spec k key) as [-> | E]; simpl.
  - rewrite IH by assumption.
    apply own_None_not_In in Hnotin. rewrite Hnotin. lia.
  - rewrite IH by assumption.
    destruct (own data key) eqn:Eo; [ | reflexivity ].
    destruct data; [discriminate | simpl; lia].
Qed.

(** X20. The length of a storage a program can build is the number of its
    keys: zero when new or cleared, one more after a key is first stored,
    the same after a key is stored again, one less after a stored key is
    removed, the same after another key is removed. *)
Theorem length_counts_keys :
  forall s,
    reachable s ->
    length constructor = 0%nat
    /\ length (clear s) = 0%nat
    /\ (forall key value,
           key <> "__proto__" ->
           length (setItem s key value)
           = match getItem s key with
             | JStr _ => length s
             | _ => S (length s)
             end)
    /\ (forall key,
           length (removeItem s key)
           = match getItem s key with
             | JStr _ => (length s - 1)%nat
             | _ => length s
             end).
Proof.
  intros s Hs. pose proof (reachable_NoDup s Hs) as Hnd.
  split; [reflexivity | split; [reflexivity | split ] ].
  - intros key value Hne. rewrite !length_data. unfold setItem, getItem.
    destruct (String.eqb_spec key "__proto__"); [contradiction | ].
    cbn [_data]. rewrite <- !(length_map fst), assign_own_keys.
    destruct (own (_data s) key); [reflexivity | ].
    rewrite length_app. cbn [List.length].
    destruct (existsb (String.eqb key) inherited); lia.
  - intro key. rewrite !length_data. unfold removeItem, getItem.
    cbn [_data]. rewrite remove_length by assumption.
    destruct (own (_data s) key); [reflexivity | ].
    now destruct (existsb (String.eqb key) inherited).
Qed.

(** X21. In a storage a program can build, [key] enumerates the stored keys:
    a name is returned at some index exactly when something is stored under
    it, at no more than one index, and an index below zero or not below the
    length gives [undefined]. *)
Theorem key_enumerates_stored_keys :
  forall s,
    reachable s ->
    (forall name,
        (exists index, key s index = JStr name)
        <-> (exists value, getItem s name = JStr value))
    /\ (forall i j name,
           key s i = JStr name -> key s j = JStr name -> i = j)
    /\ (forall index,
           (index < 0 \/ Z.of_nat (length s) <= index)%Z ->
           key s index = JUndefined).
Proof.
  intros s Hs. pose proof (reachable_NoDup s Hs) as Hnd.
  pose proof (getOwnPropertyNames_perm (_data s)) as Hperm.
  assert (Hkey : forall index name,
             key s index = JStr name <->
             (0 <= index)%Z
             /\ nth_error (getOwnPropertyNames (_data s)) (Z.to_nat index)
                = Some name).
  { intros index name. unfold key. destruct (Z.ltb_spec index 0).
    - split; [discriminate | lia].
    - destruct (nth_error _ _) as [name' | ]; split.
      + intro E. injection E as ->. now split.
      + intros (_ & E). now injection E as ->.
      + discriminate.
      + intros (_ & E). discriminate. }
  assert (Hown : forall name,
             (exists value, getItem s name = JStr value)
             <-> In name (map fst (_data s))).
  { intro name. unfold getItem.
    destruct (own (_data s) name) as [value | ] eqn:E.
    - split; [ | intros _; now exists value ].
      intros _. destruct (in_dec string_dec name (map fst (_data s)))
        as [Hin | Hnin]; [exact Hin | ].
      apply own_None_not_In in Hnin. congruence.
    - split.
      + intros (value & Hv).
        destruct (existsb (String.eqb name) inherited); discriminate.
      + intro Hin. apply own_None_not_In in E. contradiction. }
  split; [ | split ].
  - intro name. rewrite Hown. split.
    + intros (index & Hi). apply Hkey in Hi. destruct Hi as (_ & Hn).
      apply nth_error_In in Hn. now apply (Permutation_in _ Hperm).
    + intro Hin. apply (Permutation_in _ (Permutation_sym Hperm)) in Hin.
      apply In_nth_error in Hin. destruct Hin as (n & Hn).
      exists (Z.of_nat n). apply Hkey. rewrite Nat2Z.id. split; [lia | exact Hn].
  - intros i j name Hi Hj. apply Hkey in Hi, Hj.
    destruct Hi as (Hi0 & Hi), Hj as (Hj0 & Hj).
    assert (Hnd' : NoDup (getOwnPropertyNames (_data s)))
      by (apply (Permutation_NoDup (Permutation_sym Hperm)); exact Hnd).
    assert (Z.to_nat i = Z.to_nat j); [ | lia ].
    apply (proj1 (NoDup_nth_error _) Hnd').
    + apply nth_error_Some. congruence.
    + congruence.
  - intros index Hout. unfold key.
    destruct (Z.ltb_spec index 0); [reflexivity | ].
    destruct Hout as [Hneg | Hlen]; [lia | ].
    assert (Hnone : nth_error (getOwnPropertyNames (_data s))
                      (Z.to_nat index) = None).
    { apply nth_error_None. unfold length in Hlen. lia. }
    now rewrite Hnone.
Qed.

End StorageFacts.


Lemma three_reachable :
  InMemoryWebStorage.reachable StorageSample.three.
Proof. repeat constructor. Qed.

Lemma setItem_getItem_witness :
  InMemoryWebStorage.getItem
    (InMemoryWebStorage.setItem StorageSample.three "token" "abc") "token"
  = JStr "abc"
  /\ InMemoryWebStorage.getItem
       (InMemoryWebStorage.setItem StorageSample.three "token" "abc") "b"
     = JStr "2"
  /\ InMemoryWebStorage.getItem
       (InMemoryWebStorage.setItem StorageSample.three "__proto__" "abc")
       "__proto__"
     = JBuiltin "__proto__".
Proof.
  destruct (StorageFacts.setItem_getItem StorageSample.three "token" "abc")
    as (Hsame & Hother & _).
  destruct (StorageFacts.setItem_getItem StorageSample.three "__proto__"
              "abc")
    as (_ & _ & Hproto).
  split; [ | split ].
  - apply Hsame. discriminate.
  - rewrite (Hother "b"); [reflexivity | discriminate].
  - rewrite Hproto. reflexivity.
Defined.

Lemma removeItem_getItem_witness :
  InMemoryWebStorage.getItem
    (InMemoryWebStorage.removeItem StorageSample.three "b") "b"
  = JUndefined
  /\ InMemoryWebStorage.getItem
       (InMemoryWebStorage.removeItem StorageSample.three "b") "9"
     = JStr "y".
Proof.
  destruct (StorageFacts.removeItem_getItem StorageSample.three "b")
    as (Hsame & Hother & _).
  split.
  - rewrite Hsame. reflexivity.
  - rewrite (Hother "9"); [reflexivity | discriminate].
Defined.

Lemma length_counts_keys_witness :
  InMemoryWebStorage.length StorageSample.three = 3%nat
  /\ InMemoryWebStorage.length
       (InMemoryWebStorage.setItem StorageSample.three "b" "3") = 3%nat
  /\ InMemoryWebStorage.length
       (InMemoryWebStorage.setItem StorageSample.three "c" "3") = 4%nat
  /\ InMemoryWebStorage.length
       (InMemoryWebStorage.removeItem StorageSample.three "b") = 2%nat.
Proof.
  destruct (StorageFacts.length_counts_keys StorageSample.three
              three_reachable)
    as (_ & _ & Hset & Hremove).
  split; [reflexivity | split; [ | split ] ].
  - rewrite (Hset "b" "3"); [reflexivity | discriminate].
  - rewrite (Hset "c" "3"); [reflexivity | discriminate].
  - rewrite (Hremove "b"). reflexivity.
Defined.

Lemma key_enumerates_witness :
  (exists index, InMemoryWebStorage.key StorageSample.three index = JStr "b")
  /\ InMemoryWebStorage.key StorageSample.three 3 = JUndefined
  /\ InMemoryWebStorage.key StorageSample.three (-1) = JUndefined.
Proof.
  destruct (StorageFacts.key_enumerates_stored_keys StorageSample.three
              three_reachable)
    as (Hkeys & _ & Hout).
  split; [ | split ].
  - apply Hkeys. exists "2". reflexivity.
  - apply Hout. right. vm_compute. discriminate.
  - apply Hout. left. reflexivity.
Defined.

(** Array-index keys come first, in numeric order, then the other keys as
    they were created. *)
Example key_order_of_the_sample :
  map (InMemoryWebStorage.key StorageSample.three) [0%Z; 1%Z; 2%Z]
  = [JStr "9"; JStr "10"; JStr "b"].
Proof. reflexivity. Qed.


(** ** The timer *)

Module TimerFacts.

Import Timer TimerRuns.

(** The whole seconds [init] counts: 1 for a duration that is not positive,
    the floor of the duration otherwise. *)
Lemma seconds_cases duration :
  let clamped :=
    if QArith_base.Qle_bool duration (QArith_base.Qmake 0 1)
    then QArith_base.Qmake 1 1 else duration in
  (0 <= Qround.Qfloor clamped)%Z
  /\ (QArith_base.Qle duration (QArith_base.Qmake 0 1) ->
      Qround.Qfloor clamped = 1%Z).
Proof.
  intro clamped. subst clamped.
  destruct (QArith_base.Qle_bool duration (QArith_base.Qmake 0 1)) eqn:E.
  - split; [ vm_compute; discriminate | reflexivity ].
  - split.
    + change 0%Z with (Qround.Qfloor (QArith_base.Qmake 0 1)).
      apply Qround.Qfloor_resp_le.
      destruct (QArith_base.Qlt_le_dec (QArith_base.Qmake 0 1) duration)
        as [Hlt | Hle].
      * now apply QArith_base.Qlt_le_weak.
      * apply QArith_base.Qle_bool_iff in Hle. congruence.
    + intro Hle. apply QArith_base.Qle_bool_iff in Hle. congruence.
Qed.

Section Facts.

Variable setInterval : list Effect -> Z -> Z.

Local Abbreviation init := (init setInterval).
Local Abbreviation outstanding := (outstanding setInterval).
Local Abbreviation replay := (replay setInterval).
Local Abbreviation holds_its_interval := (holds_its_interval setInterval).

(** X22. [init] never sets an expiration before the current time, counts a
    duration that is not positive as one second, and either finds the timer
    already armed for that expiration and does nothing, or cancels it and
    arms one interval whose period is the time left, capped at five
    seconds, in milliseconds; the handle kept is the one [setInterval]
    returned. *)
Theorem init_arms_one_interval :
  forall now duration s,
    let s' := init now duration s in
    (now <= expiration s')%Z
    /\ (QArith_base.Qle duration (QArith_base.Qmake 0 1) ->
        expiration s' = (now + 1)%Z)
    /\ ((s' = s /\ armed s = true)
        \/ exists milliseconds,
             (0 <= milliseconds <= 5000)%Z
             /\ milliseconds = (1000 * Z.min 5 (expiration s' - now))%Z
             /\ effects s' = effects (cancel s) ++ [SetInterval milliseconds]
             /\ _timerHandle s'
                = Some (setInterval (effects (cancel s)) milliseconds)).
Proof.
  intros now duration s s'. subst s'. unfold Timer.init.
  destruct (seconds_cases duration) as (Hpos & Hone).
  set (seconds := Qround.Qfloor _) in *.
  destruct ((expiration s =? now + seconds)%Z && armed s) eqn:E.
  - apply andb_prop in E. destruct E as (Ee & Ea).
    apply Z.eqb_eq in Ee. split; [ | split ].
    + rewrite Ee. lia.
    + intro H. rewrite Ee, (Hone H). reflexivity.
    + left. now split.
  - cbn [expiration _expiration effects _timerHandle].
    split; [lia | split ].
    + intro H. now rewrite (Hone H).
    + right. eexists. split; [ | split; [ | split; reflexivity ] ].
      * unfold DefaultTimerDurationInSeconds.
        destruct (Z.ltb_spec seconds 5); lia.
      * unfold DefaultTimerDurationInSeconds.
        destruct (Z.ltb_spec seconds 5); lia.
Qed.

(** X23. The callback does nothing before the expiration; from the
    expiration on it cancels the timer and raises the event, leaving the
    timer disarmed and the expiration as it was. *)
Theorem callback_raises_at_expiration :
  forall now s,
    ((now < expiration s)%Z -> _callback now s = s)
    /\ ((expiration s <= now)%Z ->
        let s' := _callback now s in
        armed s' = false
        /\ effects s' = effects (cancel s) ++ [Raise]
        /\ expiration s' = expiration s).
Proof.
  intros now s. unfold _callback, expiration. split.
  - intro H. destruct (Z.leb_spec (_expiration s) now); [lia | reflexivity].
  - intro H. destruct (Z.leb_spec (_expiration s) now); [ | lia ].
    cbn [effects _expiration]. unfold armed, cancel.
    destruct (_timerHandle s) as [handle | ] eqn:Eh; cbn;
      [ | now rewrite Eh ].
    destruct (Z.eqb_spec handle 0); cbn; [ | auto ].
    rewrite Eh. subst. auto.
Qed.

Lemma replay_app done a b live :
  replay done (a ++ b) live = replay (done ++ a) b (replay done a live).
Proof.
  revert done live. induction a as [ | effect a IH]; intros done live;
    simpl; [ now rewrite app_nil_r | ].
  destruct effect; rewrite IH, <- app_assoc; reflexivity.
Qed.

Hypothesis handles_nonzero : forall done ms, setInterval done ms <> 0%Z.

Lemma cancel_holds s :
  holds_its_interval s ->
  holds_its_interval (cancel s) /\ _timerHandle (cancel s) = None.
Proof.
  unfold TimerRuns.holds_its_interval, cancel, TimerRuns.outstanding.
  destruct (_timerHandle s) as [handle | ] eqn:Eh.
  - intros (Hnz & Hout).
    destruct (Z.eqb_spec handle 0); [contradiction | ].
    cbn. split; [ | reflexivity ].
    rewrite replay_app, Hout. cbn.
    destruct (Z.eq_dec handle handle); [reflexivity | contradiction].
  - intro H. rewrite Eh. now split.
Qed.

Lemma reachable_holds s :
  reachable setInterval s -> holds_its_interval s.
Proof.
  induction 1 as [ | now duration s _ IH | s _ IH | now s _ IH].
  - reflexivity.
  - unfold Timer.init.
    destruct (_ && _); [exact IH | ].
    destruct (cancel_holds s IH) as (Hc & Hnone).
    unfold TimerRuns.holds_its_interval in *. rewrite Hnone in Hc.
    cbn [_timerHandle]. split; [apply handles_nonzero | ].
    unfold TimerRuns.outstanding in *. cbn [effects].
    rewrite replay_app, Hc. reflexivity.
  - now apply cancel_holds.
  - unfold _callback. destruct (_ <=? _)%Z; [ | exact IH ].
    destruct (cancel_holds s IH) as (Hc & Hnone).
    unfold TimerRuns.holds_its_interval in *. cbn [_timerHandle].
    rewrite Hnone in *.
    unfold TimerRuns.outstanding in *. cbn [effects].
    rewrite replay_app, Hc. reflexivity.
Qed.

(** X24. When [setInterval] never returns the handle 0, a timer never leaks
    an interval: whatever sequence of [init], [cancel] and callbacks it
    went through, the intervals set and not cleared are exactly the one
    whose handle the timer holds, and none when it holds none. *)
Theorem timer_holds_its_only_interval :
  forall s,
    reachable setInterval s ->
    outstanding s
    = match _timerHandle s with
      | Some handle => [handle]
      | None => []
      end.
Proof.
  intros s H. apply reachable_holds in H.
  unfold TimerRuns.holds_its_interval in H.
  destruct (_timerHandle s); tauto.
Qed.

(** X25. When [setInterval] never returns the handle 0, initialising a
    timer again at the same time for the same duration changes nothing:
    the interval is not armed a second time. *)
Theorem init_twice_is_init_once :
  forall now duration s,
    init now duration (init now duration s) = init now duration s.
Proof.
  intros now duration s.
  assert (Hsame : forall s0,
             (expiration s0 =? now
                + Qround.Qfloor
                    (if QArith_base.Qle_bool duration (QArith_base.Qmake 0 1)
                     then QArith_base.Qmake 1 1 else duration))%Z
             && armed s0 = true ->
             init now duration s0 = s0).
  { intros s0 E. unfold Timer.init. now rewrite E. }
  apply Hsame. unfold Timer.init.
  match goal with
  | |- context [if ?b then s else _] => destruct b eqn:E; [exact E | ]
  end.
  unfold expiration at 1. cbn [_expiration]. rewrite Z.eqb_refl. cbn [andb].
  unfold armed. cbn [_timerHandle].
  apply negb_true_iff, Z.eqb_neq, handles_nonzero.
Qed.

End Facts.

End TimerFacts.


Lemma counting_nonzero :
  forall done ms, TimerRuns.counting done ms <> 0%Z.
Proof. intros done ms. unfold TimerRuns.counting. lia. Qed.

Lemma init_arms_one_interval_witness :
  Timer.expiration TimerSample.running = 103%Z
  /\ Timer.effects TimerSample.running = [Timer.SetInterval 3000]
  /\ Timer.expiration
       (Timer.init TimerRuns.counting 100 (QArith_base.Qmake (-5) 1)
          Timer.fresh)
     = 101%Z
  /\ Timer.effects TimerSample.rearmed
     = [Timer.SetInterval 3000; Timer.ClearInterval 1;
        Timer.SetInterval 5000].
Proof.
  destruct (TimerFacts.init_arms_one_interval TimerRuns.counting 100
              (QArith_base.Qmake 7 2) Timer.fresh)
    as (_ & _ & [ (_ & Harmed) | (ms & _ & Hms & Heffects & _) ]);
    [ discriminate | ].
  destruct (TimerFacts.init_arms_one_interval TimerRuns.counting 100
              (QArith_base.Qmake (-5) 1) Timer.fresh)
    as (_ & Hone & _).
  destruct (TimerFacts.init_arms_one_interval TimerRuns.counting 102
              (QArith_base.Qmake 60 1) TimerSample.running)
    as (_ & _ & [ (Hsame & _) | (ms' & _ & Hms' & Heffects' & _) ]);
    [ discriminate | ].
  split; [reflexivity | split; [ | split ] ].
  - fold TimerSample.running in Heffects. rewrite Heffects, Hms.
    reflexivity.
  - apply Hone. vm_compute. discriminate.
  - fold TimerSample.rearmed in Heffects'. rewrite Heffects', Hms'.
    reflexivity.
Defined.

Lemma callback_raises_witness :
  Timer._callback 102 TimerSample.running = TimerSample.running
  /\ Timer.effects (Timer._callback 103 TimerSample.running)
     = [Timer.SetInterval 3000; Timer.ClearInterval 1; Timer.Raise]
  /\ Timer.armed (Timer._callback 103 TimerSample.running) = false.
Proof.
  destruct (TimerFacts.callback_raises_at_expiration 102 TimerSample.running)
    as (Hbefore & _).
  destruct (TimerFacts.callback_raises_at_expiration 103 TimerSample.running)
    as (_ & Hafter).
  split; [ | split ].
  - apply Hbefore. reflexivity.
  - rewrite (proj1 (proj2 (Hafter ltac:(discriminate)))). reflexivity.
  - exact (proj1 (Hafter ltac:(discriminate))).
Defined.

Lemma rearmed_reachable :
  TimerRuns.reachable TimerRuns.counting TimerSample.rearmed.
Proof. repeat constructor. Qed.

Lemma timer_holds_its_only_interval_witness :
  TimerRuns.outstanding TimerRuns.counting TimerSample.rearmed = [3%Z]
  /\ Timer._timerHandle TimerSample.rearmed = Some 3%Z.
Proof.
  split; [ | reflexivity ].
  exact (TimerFacts.timer_holds_its_only_interval TimerRuns.counting
           counting_nonzero TimerSample.rearmed rearmed_reachable).
Defined.

Lemma init_twice_witness :
  Timer.init TimerRuns.counting 100 (QArith_base.Qmake 7 2)
    TimerSample.running
  = TimerSample.running.
Proof.
  exact (TimerFacts.init_twice_is_init_once TimerRuns.counting
           counting_nonzero 100 (QArith_base.Qmake 7 2) Timer.fresh).
Defined.


(** ** Soundness of the key resolution *)

Lemma filter_by_Some name value keys kept :
  filter_by name value keys = Some kept ->
  kept = filter (has name value) keys.
Proof.
  revert kept. induction keys as [ | key keys IH]; intros kept; simpl.
  - intro E. now injection E as <-.
  - unfold has. destruct (prop key name) as [v | ]; [ | discriminate ].
    destruct (filter_by name value keys) as [kept' | ]; [ | discriminate ].
    intro E. injection E as <-. rewrite (IH kept' eq_refl).
    now destruct (strict_eq v value).
Qed.

Section ResolutionSoundness.

Variable settings : Settings.t.
Variable getJson : list Event -> JsValue -> Result JsValue.

Local Abbreviation resolve := (_getSigningKeyForJwt settings getJson).

(** X26. A key that the resolution returns is a key of the key set that
    [getSigningKeys] delivered: with a [kid] in the header it carries that
    [kid]; without one, the header [alg] is of a supported family and the
    key is the only key of the key type of that family.  The resolution does
    nothing to the world beyond what [getSigningKeys] did. *)
Theorem resolved_key_is_a_matching_key :
  forall jwt w key w',
    resolve jwt w = (Ok key, w') ->
    truthy key = true ->
    exists keys kid,
      getSigningKeys settings getJson w = (Ok (JArr keys), w')
      /\ prop (Jwt.header jwt) "kid" = Some kid
      /\ In key keys
      /\ ((truthy kid = true /\ has "kid" kid key = true)
          \/ (truthy kid = false
              /\ exists alg kty,
                   prop (Jwt.header jwt) "alg" = Some (JStr alg)
                   /\ family_kty alg = Some kty
                   /\ filter (has "kty" (JStr kty)) keys = [key])).
Proof.
  intros jwt w key w' H Ht. unfold _getSigningKeyForJwt in H.
  ok_step_as H fetched w1 Hk.
  ok_step_as H u w2 Hguard.
  apply throw_if_ok in Hguard. destruct Hguard as (_ & ->).
  ok_step_as H kid w3 Hkid.
  apply defined_ok in Hkid. destruct Hkid as (Hkid & ->).
  destruct (truthy kid) eqn:Etk.
  - destruct fetched as [ | | | | | keys | | ]; try discriminate.
    ok_step_as H matching w4 Hm.
    apply defined_ok in Hm. destruct Hm as (Hm & ->).
    inversion H; subst; clear H.
    apply filter_by_Some in Hm. subst matching.
    exists keys, kid. split; [exact Hk | split; [exact Hkid | ] ].
    destruct (filter (has "kid" kid) keys) as [ | k rest] eqn:Ef;
      [ discriminate | ].
    assert (Hkey : nullish_or (first (k :: rest)) JNull = k).
    { simpl. simpl in Ht. destruct k; try reflexivity; discriminate. }
    rewrite Hkey in *.
    assert (Hin : In k (filter (has "kid" kid) keys))
      by (rewrite Ef; now left).
    apply filter_In in Hin. destruct Hin as (Hin & Hhas).
    split; [exact Hin | left; now split].
  - ok_step_as H alg w4 Halg.
    apply defined_ok in Halg. destruct Halg as (Halg & ->).
    ok_step_as H cands w5 Hf.
    assert (Hshape : exists a keys kty,
               alg = JStr a /\ fetched = JArr keys
               /\ family_kty a = Some kty
               /\ cands = filter (has "kty" (JStr kty)) keys
               /\ w5 = w1).
    { unfold _filterByAlg in Hf.
      destruct alg as [ | | | | a | | | ]; try discriminate.
      assert (Hone : forall kty,
                 match fetched with
                 | JArr keys => defined (filter_by "kty" (JStr kty) keys)
                 | _ => throw TypeError
                 end w1 = (Ok cands, w5) ->
                 exists keys,
                   fetched = JArr keys
                   /\ cands = filter (has "kty" (JStr kty)) keys
                   /\ w5 = w1).
      { intros kty E.
        destruct fetched as [ | | | | | keys | | ]; try discriminate.
        apply defined_ok in E. destruct E as (E & ->).
        apply filter_by_Some in E. now exists keys. }
      destruct (String.prefix "RS" a) eqn:Ers;
        [ destruct (Hone _ Hf) as (keys & -> & -> & ->);
          exists a, keys, "RSA"; unfold family_kty; rewrite Ers;
          repeat split | ].
      destruct (String.prefix "PS" a) eqn:Eps;
        [ destruct (Hone _ Hf) as (keys & -> & -> & ->);
          exists a, keys, "PS"; unfold family_kty; rewrite Ers, Eps;
          repeat split | ].
      destruct (String.prefix "ES" a) eqn:Ees;
        [ destruct (Hone _ Hf) as (keys & -> & -> & ->);
          exists a, keys, "EC"; unfold family_kty; rewrite Ers, Eps, Ees;
          repeat split | ].
      inversion Hf; subst. simpl in H. inversion H; subst. discriminate. }
    destruct Hshape as (a & keys & kty & -> & -> & Hfam & -> & ->).
    destruct (filter (has "kty" (JStr kty)) keys) as [ | k [ | k' rest] ]
      eqn:Ef; simpl in H; inversion H; subst; try discriminate.
    exists keys, kid. split; [exact Hk | split; [exact Hkid | ] ].
    assert (Hin : In key (filter (has "kty" (JStr kty)) keys))
      by (rewrite Ef; now left).
    apply filter_In in Hin. destruct Hin as (Hin & _).
    split; [exact Hin | right ].
    split; [exact Etk | ]. exists a, kty. auto.
Qed.

End ResolutionSoundness.

Lemma resolved_key_witness :
  exists keys kid,
    getSigningKeys Sample.settings Sample.getJson Sample.world
    = (Ok (JArr keys), Sample.fetched)
    /\ prop (Jwt.header Sample.jwt) "kid" = Some kid
    /\ In Sample.k1 keys
    /\ ((truthy kid = true /\ has "kid" kid Sample.k1 = true)
        \/ (truthy kid = false
            /\ exists alg kty,
                 prop (Jwt.header Sample.jwt) "alg" = Some (JStr alg)
                 /\ family_kty alg = Some kty
                 /\ filter (has "kty" (JStr kty)) keys = [Sample.k1])).
Proof.
  apply (resolved_key_is_a_matching_key Sample.settings Sample.getJson
           Sample.jwt Sample.world Sample.k1 Sample.fetched).
  - vm_compute. reflexivity.
  - reflexivity.
Defined.
